(** * The lldb-eval expression fuzzer: generation engine

    A shallow embedding of [tools/fuzzer/expr_gen.cc]: the weighted,
    precedence-aware random expression generator ([ExprGenerator]) and the
    default randomness source ([DefaultGeneratorRng]) with its bit-selection
    helper [pick_nth_set_bit].

    Conventions of the embedding:
    - [size_t] and [uint64_t] values are integers ([Z], or [nat] for loop
      indices); no arithmetic of the translated code can wrap.
    - [float] and [double] values are exact rationals ([Q]): the code only
      adds, multiplies and compares them. Rounding is not modelled.
    - a [std::bitset<N>] is an integer whose bits [0 .. N-1] are the mask.
    - a [std::array] indexed by [ExprKind] is a record with one field per
      enumerator ([KindArray]); its index order is the enumerator order.
    - calls through [rng_] thread the randomness source explicitly; a failed
      [assert] or a reached [lldb_eval_unreachable] aborts the run.
    - [gen_with_weights] recurses without a bound in the source; the
      embedding takes a recursion budget and reports [OutOfFuel] when the
      budget does not suffice. *)

From Stdlib Require Import String ZArith QArith List Bool Lia Lqa.
Import ListNotations.

Set Implicit Arguments.

(** ** Results of a run *)

Inductive Fatal : Type :=
| AssertionFailed (msg : string)
| Unreachable (msg : string).

Inductive result (A : Type) : Type :=
| Ok (a : A)
| Abort (f : Fatal)
| OutOfFuel.

Arguments Ok {A} a.
Arguments Abort {A} f.
Arguments OutOfFuel {A}.

(** A computation that draws from a randomness source of type [R]. *)
Definition M (R A : Type) : Type := R -> result (A * R).

Definition ret {R A : Type} (a : A) : M R A := fun r => Ok (a, r).

Definition bind {R A B : Type} (m : M R A) (k : A -> M R B) : M R B :=
  fun r =>
    match m r with
    | Ok (a, r') => k a r'
    | Abort f => Abort f
    | OutOfFuel => OutOfFuel
    end.

Declare Scope gen_scope.
Delimit Scope gen_scope with gen.
Notation "x <- m ;; k" := (bind m (fun x => k))
  (at level 61, m at next level, right associativity) : gen_scope.

(** ** Enumerations and the generation-side expression tree

    The types of this part are declared in the headers
    [tools/fuzzer/expr_gen.h] and [tools/fuzzer/ast.h], which are not among
    the sources; they follow the uses in [expr_gen.cc] and the data model of
    the specification. *)

(** Modelled from the spec: [enum class ExprKind], with the five enumerators
    that the dispatch of [gen_with_weights] names, in that order. *)
Module ExprKind.
Inductive t : Type :=
| IntegerConstant
| DoubleConstant
| VariableExpr
| BinaryExpr
| UnaryExpr.

(** The enumerators in declaration order: [(ExprKind)i] is the [i]-th. *)
Definition all : list t :=
  [IntegerConstant; DoubleConstant; VariableExpr; BinaryExpr; UnaryExpr].

Definition eqb (a b : t) : bool :=
  match a, b with
  | IntegerConstant, IntegerConstant
  | DoubleConstant, DoubleConstant
  | VariableExpr, VariableExpr
  | BinaryExpr, BinaryExpr
  | UnaryExpr, UnaryExpr => true
  | _, _ => false
  end.
End ExprKind.

(** Modelled from the spec: [BinOp], [UnOp] and [TypeKind] are enumerations
    whose enumerators the sources do not list; a value is kept as its
    underlying index, which is what the casts [(BinOp)pick_nth_set_bit(...)]
    and [(TypeKind)i] produce. *)
Inductive BinOp : Type := BinOp_of_index (i : nat).
Inductive UnOp : Type := UnOp_of_index (i : nat).
Inductive TypeKind : Type := TypeKind_of_index (i : nat).

(** Modelled from the spec: the flag set [{None, Const, Volatile}], closed
    under union. *)
Record CvQualifiers : Type := {
  cv_const : bool;
  cv_volatile : bool
}.

Module CvQual.
Definition None : CvQualifiers := {| cv_const := false; cv_volatile := false |}.
Definition Const : CvQualifiers := {| cv_const := true; cv_volatile := false |}.
Definition Volatile : CvQualifiers := {| cv_const := false; cv_volatile := true |}.
(** [operator|=] on the flag type. *)
Definition union (a b : CvQualifiers) : CvQualifiers :=
  {| cv_const := cv_const a || cv_const b;
     cv_volatile := cv_volatile a || cv_volatile b |}.
End CvQual.

(** Modelled from the spec: the variant [Expr] and its six alternatives. *)
Inductive Expr : Type :=
| IntegerConstant (value : Z)
| DoubleConstant (value : Q)
| VariableExpr (name : string)
| UnaryExpr (op : UnOp) (expr : Expr)
| BinaryExpr (lhs : Expr) (op : BinOp) (rhs : Expr)
| ParenthesizedExpr (expr : Expr).

(** The constants and tables of [tools/fuzzer/ast.h] that the generator
    reads: the sizes of the operator masks, the precedence of each binary
    operator and of each variant, the variable name [VAR] and the
    enumerator [TypeKind::ScalarType]. They are parameters of the
    development. *)
Class AstHeader : Type := {
  NUM_BIN_OPS : nat;
  NUM_UN_OPS : nat;
  bin_op_precedence : BinOp -> Z;
  IntegerConstant_PRECEDENCE : Z;
  DoubleConstant_PRECEDENCE : Z;
  VariableExpr_PRECEDENCE : Z;
  UnaryExpr_PRECEDENCE : Z;
  ParenthesizedExpr_PRECEDENCE : Z;
  VAR : string;
  ScalarType : TypeKind
}.

(** ** Weights and configuration *)

(** [std::array<A, NUM_EXPR_KINDS>]. *)
Record KindArray (A : Type) : Type := {
  at_IntegerConstant : A;
  at_DoubleConstant : A;
  at_VariableExpr : A;
  at_BinaryExpr : A;
  at_UnaryExpr : A
}.

Module KindArray.
Definition get {A : Type} (a : KindArray A) (k : ExprKind.t) : A :=
  match k with
  | ExprKind.IntegerConstant => at_IntegerConstant a
  | ExprKind.DoubleConstant => at_DoubleConstant a
  | ExprKind.VariableExpr => at_VariableExpr a
  | ExprKind.BinaryExpr => at_BinaryExpr a
  | ExprKind.UnaryExpr => at_UnaryExpr a
  end.

Definition set {A : Type} (a : KindArray A) (k : ExprKind.t) (v : A)
  : KindArray A :=
  match k with
  | ExprKind.IntegerConstant =>
      {| at_IntegerConstant := v; at_DoubleConstant := at_DoubleConstant a;
         at_VariableExpr := at_VariableExpr a; at_BinaryExpr := at_BinaryExpr a;
         at_UnaryExpr := at_UnaryExpr a |}
  | ExprKind.DoubleConstant =>
      {| at_IntegerConstant := at_IntegerConstant a; at_DoubleConstant := v;
         at_VariableExpr := at_VariableExpr a; at_BinaryExpr := at_BinaryExpr a;
         at_UnaryExpr := at_UnaryExpr a |}
  | ExprKind.VariableExpr =>
      {| at_IntegerConstant := at_IntegerConstant a;
         at_DoubleConstant := at_DoubleConstant a; at_VariableExpr := v;
         at_BinaryExpr := at_BinaryExpr a; at_UnaryExpr := at_UnaryExpr a |}
  | ExprKind.BinaryExpr =>
      {| at_IntegerConstant := at_IntegerConstant a;
         at_DoubleConstant := at_DoubleConstant a;
         at_VariableExpr := at_VariableExpr a; at_BinaryExpr := v;
         at_UnaryExpr := at_UnaryExpr a |}
  | ExprKind.UnaryExpr =>
      {| at_IntegerConstant := at_IntegerConstant a;
         at_DoubleConstant := at_DoubleConstant a;
         at_VariableExpr := at_VariableExpr a;
         at_BinaryExpr := at_BinaryExpr a; at_UnaryExpr := v |}
  end.

(** The elements in index order ([begin() .. end()]). *)
Definition to_list {A : Type} (a : KindArray A) : list A :=
  map (get a) ExprKind.all.

Definition map {A B : Type} (f : A -> B) (a : KindArray A) : KindArray B :=
  {| at_IntegerConstant := f (at_IntegerConstant a);
     at_DoubleConstant := f (at_DoubleConstant a);
     at_VariableExpr := f (at_VariableExpr a);
     at_BinaryExpr := f (at_BinaryExpr a);
     at_UnaryExpr := f (at_UnaryExpr a) |}.
End KindArray.

(** Modelled from the spec: [Weights], the expression-kind and the
    type-kind weight vectors. *)
Record Weights : Type := {
  expr_weights : KindArray Q;
  type_weights : list Q
}.

(** [weights[kind] *= factor]. *)
Definition Weights_scale (w : Weights) (kind : ExprKind.t) (factor : Q) : Weights :=
  {| expr_weights :=
       KindArray.set (expr_weights w) kind
         (KindArray.get (expr_weights w) kind * factor)%Q;
     type_weights := type_weights w |}.

(** Modelled from the spec: one row of the weight table, and the
    configuration [GenConfig] with the fields that [expr_gen.cc] reads
    ([cfg_.int_const_min] ...) and the type-side fields of the
    specification. *)
Record ExprKindWeightInfo : Type := {
  initial_weight : Q;
  dampening_factor : Q
}.

Record GenConfig : Type := {
  int_const_min : Z;
  int_const_max : Z;
  double_constant_min : Q;
  double_constant_max : Q;
  bin_op_mask : Z;
  un_op_mask : Z;
  parenthesize_prob : Q;
  const_prob : Q;
  volatile_prob : Q;
  expr_kind_weights : KindArray ExprKindWeightInfo;
  type_kind_weights : list ExprKindWeightInfo
}.

(** ** The randomness-source interface ([GeneratorRng])

    Modelled from the spec: the abstract class has one method per
    definition of [DefaultGeneratorRng] in [expr_gen.cc]. *)

Class GeneratorRng (R : Type) : Type := {
  gen_bin_op : Z -> M R BinOp;
  gen_un_op : Z -> M R UnOp;
  gen_u64 : Z -> Z -> M R Z;
  gen_double : Q -> Q -> M R Q;
  gen_cv_qualifiers : Q -> Q -> M R CvQualifiers;
  gen_parenthesize : Q -> M R bool;
  gen_expr_kind : Weights -> M R ExprKind.t;
  gen_type_kind : Weights -> M R TypeKind
}.

(** ** The generation engine ([ExprGenerator]) *)

Section ExprGenerator.
Context {hdr : AstHeader}.

(** [expr_precedence]: each variant's [precedence()]. *)
Definition expr_precedence (e : Expr) : Z :=
  match e with
  | IntegerConstant _ => IntegerConstant_PRECEDENCE
  | DoubleConstant _ => DoubleConstant_PRECEDENCE
  | VariableExpr _ => VariableExpr_PRECEDENCE
  | UnaryExpr _ _ => UnaryExpr_PRECEDENCE
  | BinaryExpr _ op _ => bin_op_precedence op
  | ParenthesizedExpr _ => ParenthesizedExpr_PRECEDENCE
  end.

Context {R : Type} {rng_ : GeneratorRng R}.
Variable cfg_ : GenConfig.

Local Open Scope gen_scope.

Definition gen_integer_constant (_ : Weights) : M R Expr :=
  value <- gen_u64 (int_const_min cfg_) (int_const_max cfg_) ;;
  ret (IntegerConstant value).

Definition gen_double_constant (_ : Weights) : M R Expr :=
  value <- gen_double (double_constant_min cfg_) (double_constant_max cfg_) ;;
  ret (DoubleConstant value).

Definition gen_variable_expr (_ : Weights) : M R Expr :=
  ret (VariableExpr VAR).

Definition maybe_parenthesized (expr : Expr) : M R Expr :=
  b <- gen_parenthesize (parenthesize_prob cfg_) ;;
  if b then ret (ParenthesizedExpr expr) else ret expr.

(** [gen_binary_expr] and [gen_unary_expr] call back into
    [gen_with_weights]; the callee is the argument [gen_with_weights]. *)
Definition gen_binary_expr (gen_with_weights : Weights -> M R Expr)
    (weights : Weights) : M R Expr :=
  op <- gen_bin_op (bin_op_mask cfg_) ;;
  lhs <- gen_with_weights weights ;;
  rhs <- gen_with_weights weights ;;
  let lhs_precedence := expr_precedence lhs in
  let lhs :=
    if (lhs_precedence >? bin_op_precedence op)%Z
    then ParenthesizedExpr lhs else lhs in
  let rhs_precedence := expr_precedence rhs in
  let rhs :=
    if (rhs_precedence >=? bin_op_precedence op)%Z
    then ParenthesizedExpr rhs else rhs in
  ret (BinaryExpr lhs op rhs).

Definition gen_unary_expr (gen_with_weights : Weights -> M R Expr)
    (weights : Weights) : M R Expr :=
  expr <- gen_with_weights weights ;;
  op <- gen_un_op (un_op_mask cfg_) ;;
  let expr :=
    if (expr_precedence expr >? UnaryExpr_PRECEDENCE)%Z
    then ParenthesizedExpr expr else expr in
  ret (UnaryExpr op expr).

(** The copy made on entry, with the drawn kind's slot dampened. *)
Definition dampened (weights : Weights) (kind : ExprKind.t) : Weights :=
  Weights_scale weights kind
    (dampening_factor (KindArray.get (expr_kind_weights cfg_) kind)).

Fixpoint gen_with_weights (fuel : nat) (weights : Weights) : M R Expr :=
  match fuel with
  | O => fun _ => OutOfFuel
  | S fuel' =>
      let new_weights := weights in
      kind <- gen_expr_kind new_weights ;;
      let new_weights := dampened new_weights kind in
      (* the [default:] branch of the switch has no counterpart:
         [ExprKind.t] has the five enumerators only *)
      expr <-
        match kind with
        | ExprKind.IntegerConstant => gen_integer_constant new_weights
        | ExprKind.DoubleConstant => gen_double_constant new_weights
        | ExprKind.VariableExpr => gen_variable_expr new_weights
        | ExprKind.BinaryExpr =>
            gen_binary_expr (gen_with_weights fuel') new_weights
        | ExprKind.UnaryExpr =>
            gen_unary_expr (gen_with_weights fuel') new_weights
        end ;;
      maybe_parenthesized expr
  end.

(** [Weights weights;] followed by the loop that fills every
    expression-kind slot; the type-kind slots keep the value
    [initial_type_weights] they were constructed with. *)
Definition initial_weights (initial_type_weights : list Q) : Weights :=
  {| expr_weights := KindArray.map initial_weight (expr_kind_weights cfg_);
     type_weights := initial_type_weights |}.

Definition generate (fuel : nat) (initial_type_weights : list Q) : M R Expr :=
  gen_with_weights fuel (initial_weights initial_type_weights).

End ExprGenerator.

(** ** Bit sets ([std::bitset<N>]) *)

Definition bitset_test (mask : Z) (i : nat) : bool := Z.testbit mask (Z.of_nat i).

Definition bitset_count (N : nat) (mask : Z) : nat :=
  length (filter (bitset_test mask) (seq 0 N)).

Definition bitset_any (N : nat) (mask : Z) : bool :=
  existsb (bitset_test mask) (seq 0 N).

(** [p] holds the [c]-th set bit of the mask, counting from one. *)
Definition nth_set_bit_at (mask : Z) (c : Z) (p : nat) : Prop :=
  bitset_test mask p = true /\ Z.of_nat (bitset_count (S p) mask) = c.

(** ** The pseudo-random engine and the standard distributions

    [std::mt19937] and the [<random>] distributions are library code; an
    engine is any type with the three distribution draws the file uses. Each
    draw returns the value and the advanced engine. *)
Class RandomEngine (E : Type) : Type := {
  uniform_int_distribution : Z -> Z -> E -> Z * E;
  uniform_real_distribution : Q -> Q -> E -> Q * E;
  bernoulli_distribution : Q -> E -> bool * E
}.

(** What the properties below assume of the values drawn: an integer draw
    lies in its closed range, a real draw is not below its lower bound, and
    a Bernoulli draw with probability zero or one is constant. Nothing is
    assumed of the upper end of a real draw: [a + u * (b - a)] is rounded
    and can come out as [b]. *)
Record EngineContract (E : Type) {eng : RandomEngine E} : Prop := {
  uniform_int_range : forall a b e, (a <= b)%Z ->
    (a <= fst (uniform_int_distribution a b e) <= b)%Z;
  uniform_real_lower : forall a b e, (a <= b)%Q ->
    (a <= fst (uniform_real_distribution a b e))%Q;
  bernoulli_zero : forall p e, (p == 0)%Q ->
    fst (bernoulli_distribution p e) = false;
  bernoulli_one : forall p e, (p == 1)%Q ->
    fst (bernoulli_distribution p e) = true
}.

Arguments EngineContract E {eng}.
Arguments uniform_int_range {E eng} _ a b e _.
Arguments uniform_real_lower {E eng} _ a b e _.
Arguments bernoulli_zero {E eng} _ p e _.
Arguments bernoulli_one {E eng} _ p e _.

Definition Qlt_bool (x y : Q) : bool := negb (Qle_bool y x).

Section DefaultGeneratorRng.
Context {hdr : AstHeader}.
Context {E : Type} {eng : RandomEngine E}.

(** The scan of [pick_nth_set_bit]: [steps] iterations remain, [i] is the
    loop index and [running_ones] the count before this iteration. *)
Fixpoint pick_scan (mask : Z) (choice : Z) (steps i : nat) (running_ones : Z)
  : result nat :=
  match steps with
  | O => Abort (Unreachable "Mask has no bits set")
  | S steps' =>
      let running_ones :=
        if bitset_test mask i then (running_ones + 1)%Z else running_ones in
      if (running_ones =? choice)%Z then Ok i
      else pick_scan mask choice steps' (S i) running_ones
  end.

Definition pick_nth_set_bit (N : nat) (mask : Z) : M E nat :=
  fun rng =>
    if negb (bitset_any N mask)
    then Abort (AssertionFailed "Mask must not be empty")
    else
      let (choice, rng) :=
        uniform_int_distribution 1 (Z.of_nat (bitset_count N mask)) rng in
      match pick_scan mask choice N 0 0 with
      | Ok i => Ok (i, rng)
      | Abort f => Abort f
      | OutOfFuel => OutOfFuel
      end.

(** The class holds one engine, [rng_]. *)
Record DefaultGeneratorRng : Type := { rng_ : E }.

(** Run a computation on the engine member. *)
Definition on_engine {A : Type} (m : M E A) : M DefaultGeneratorRng A :=
  fun g =>
    match m (rng_ g) with
    | Ok (a, e) => Ok (a, {| rng_ := e |})
    | Abort f => Abort f
    | OutOfFuel => OutOfFuel
    end.

Definition draw {A : Type} (d : E -> A * E) : M E A := fun e => Ok (d e).

Local Open Scope gen_scope.

Definition Default_gen_bin_op (mask : Z) : M DefaultGeneratorRng BinOp :=
  on_engine (i <- pick_nth_set_bit NUM_BIN_OPS mask ;; ret (BinOp_of_index i)).

Definition Default_gen_un_op (mask : Z) : M DefaultGeneratorRng UnOp :=
  on_engine (i <- pick_nth_set_bit NUM_UN_OPS mask ;; ret (UnOp_of_index i)).

Definition Default_gen_u64 (min max : Z) : M DefaultGeneratorRng Z :=
  on_engine (draw (uniform_int_distribution min max)).

Definition Default_gen_double (min max : Q) : M DefaultGeneratorRng Q :=
  on_engine (draw (uniform_real_distribution min max)).

Definition Default_gen_cv_qualifiers (const_prob volatile_prob : Q)
  : M DefaultGeneratorRng CvQualifiers :=
  on_engine (
    let retval := CvQual.None in
    c <- draw (bernoulli_distribution const_prob) ;;
    let retval := if c then CvQual.union retval CvQual.Const else retval in
    v <- draw (bernoulli_distribution volatile_prob) ;;
    let retval := if v then CvQual.union retval CvQual.Volatile else retval in
    ret retval).

Definition Default_gen_parenthesize (probability : Q)
  : M DefaultGeneratorRng bool :=
  on_engine (draw (bernoulli_distribution probability)).

(** The selection loop of [gen_expr_kind] and [gen_type_kind]: [ws] are the
    weights from index [i] on; the result is the first index whose running
    sum exceeds [val], or [None] when the loop ends without a [break]. *)
Fixpoint weighted_scan (val : Q) (ws : list Q) (i : nat) (running_sum : Q)
  : option nat :=
  match ws with
  | [] => None
  | w :: ws' =>
      let running_sum := (running_sum + w)%Q in
      if Qlt_bool val running_sum then Some i
      else weighted_scan val ws' (S i) running_sum
  end.

(** [std::accumulate(begin, end, 0.0f)]. *)
Definition accumulate (ws : list Q) : Q := fold_left Qplus ws 0%Q.

Definition Default_gen_expr_kind (weights : Weights)
  : M DefaultGeneratorRng ExprKind.t :=
  on_engine (
    let expr_weights := KindArray.to_list (expr_weights weights) in
    let sum := accumulate expr_weights in
    val <- draw (uniform_real_distribution 0 sum) ;;
    let kind := ExprKind.IntegerConstant in
    let kind :=
      match weighted_scan val expr_weights 0 0 with
      | Some i => nth i ExprKind.all kind
      | None => kind
      end in
    ret kind).

Definition Default_gen_type_kind (weights : Weights)
  : M DefaultGeneratorRng TypeKind :=
  on_engine (
    let type_weights := type_weights weights in
    let sum := accumulate type_weights in
    val <- draw (uniform_real_distribution 0 sum) ;;
    let kind := ScalarType in
    let kind :=
      match weighted_scan val type_weights 0 0 with
      | Some i => TypeKind_of_index i
      | None => kind
      end in
    ret kind).

#[export] Instance DefaultGeneratorRng_GeneratorRng
  : GeneratorRng DefaultGeneratorRng := {
  gen_bin_op := Default_gen_bin_op;
  gen_un_op := Default_gen_un_op;
  gen_u64 := Default_gen_u64;
  gen_double := Default_gen_double;
  gen_cv_qualifiers := Default_gen_cv_qualifiers;
  gen_parenthesize := Default_gen_parenthesize;
  gen_expr_kind := Default_gen_expr_kind;
  gen_type_kind := Default_gen_type_kind
}.

End DefaultGeneratorRng.

(** ** A recording randomness source

    [GeneratorRng] is an interface, so a test can put a recorder in front of
    any source: [Recording R] forwards each draw to the source it wraps and
    appends the call (method and arguments) to [draws], oldest first. *)

Inductive Draw : Type :=
| DrawBinOp (mask : Z)
| DrawUnOp (mask : Z)
| DrawU64 (min max : Z)
| DrawDouble (min max : Q)
| DrawCvQualifiers (const_prob volatile_prob : Q)
| DrawParenthesize (probability : Q)
| DrawExprKind (weights : Weights)
| DrawTypeKind (weights : Weights).

Record Recording (R : Type) : Type := {
  source : R;
  draws : list Draw
}.

Definition recorded {R A : Type} (ev : Draw) (m : M R A) : M (Recording R) A :=
  fun r =>
    match m (source r) with
    | Ok (a, s) => Ok (a, {| source := s; draws := draws r ++ [ev] |})
    | Abort f => Abort f
    | OutOfFuel => OutOfFuel
    end.

#[export] Instance Recording_GeneratorRng {R : Type} {rng : GeneratorRng R}
  : GeneratorRng (Recording R) := {
  gen_bin_op mask := recorded (DrawBinOp mask) (gen_bin_op mask);
  gen_un_op mask := recorded (DrawUnOp mask) (gen_un_op mask);
  gen_u64 min max := recorded (DrawU64 min max) (gen_u64 min max);
  gen_double min max := recorded (DrawDouble min max) (gen_double min max);
  gen_cv_qualifiers c v := recorded (DrawCvQualifiers c v) (gen_cv_qualifiers c v);
  gen_parenthesize p := recorded (DrawParenthesize p) (gen_parenthesize p);
  gen_expr_kind w := recorded (DrawExprKind w) (gen_expr_kind w);
  gen_type_kind w := recorded (DrawTypeKind w) (gen_type_kind w)
}.

(** Start recording on a source, with an empty record. *)
Definition record_from {R : Type} (r : R) : Recording R :=
  {| source := r; draws := [] |}.

Definition is_type_side_draw (d : Draw) : bool :=
  match d with
  | DrawCvQualifiers _ _ | DrawTypeKind _ => true
  | _ => false
  end.

(** ** The engine after a recorded draw

    Each method of [DefaultGeneratorRng] creates its distribution objects
    anew and calls them on the one engine [rng_]. [advance e d] is the
    engine that the call recorded as [d] leaves when it starts on [e] and
    returns; [replay seed l] is the engine after the calls [l], in order,
    from [seed]. *)
Section Replay.
Context {hdr : AstHeader} {E : Type} {eng : RandomEngine E}.

Definition advance (e : E) (d : Draw) : E :=
  match d with
  | DrawBinOp mask =>
      snd (uniform_int_distribution 1
             (Z.of_nat (bitset_count NUM_BIN_OPS mask)) e)
  | DrawUnOp mask =>
      snd (uniform_int_distribution 1
             (Z.of_nat (bitset_count NUM_UN_OPS mask)) e)
  | DrawU64 min max => snd (uniform_int_distribution min max e)
  | DrawDouble min max => snd (uniform_real_distribution min max e)
  | DrawCvQualifiers const_prob volatile_prob =>
      snd (bernoulli_distribution volatile_prob
             (snd (bernoulli_distribution const_prob e)))
  | DrawParenthesize probability =>
      snd (bernoulli_distribution probability e)
  | DrawExprKind weights =>
      snd (uniform_real_distribution 0
             (accumulate (KindArray.to_list (expr_weights weights))) e)
  | DrawTypeKind weights =>
      snd (uniform_real_distribution 0 (accumulate (type_weights weights)) e)
  end.

Definition replay (seed : E) (l : list Draw) : E := fold_left advance l seed.

End Replay.

(** ** Concrete instances for running the generator *)

(** Modelled from the spec: the header [tools/fuzzer/ast.h] is not among the
    sources. In this instance leaves and parentheses bind tightest, unary
    operators bind tighter than every binary operator, and the binary levels
    are those of C++ (multiplicative 5, additive 6, shifts 7, relational 9,
    equality 10, bitwise 11 to 13, logical 14 and 15). *)
Definition sample_bin_op_levels : list Z :=
  [6; 6; 5; 5; 5; 14; 15; 11; 13; 12; 7; 7; 10; 10; 9; 9; 9; 9]%Z.

Definition sample_header : AstHeader := {|
  NUM_BIN_OPS := 18;
  NUM_UN_OPS := 4;
  bin_op_precedence := fun op =>
    match op with BinOp_of_index i => nth i sample_bin_op_levels 15%Z end;
  IntegerConstant_PRECEDENCE := 0;
  DoubleConstant_PRECEDENCE := 0;
  VariableExpr_PRECEDENCE := 0;
  UnaryExpr_PRECEDENCE := 3;
  ParenthesizedExpr_PRECEDENCE := 0;
  VAR := "x";
  ScalarType := TypeKind_of_index 0
|}.

(** A scripted engine: the tape lists the raw numbers the engine will
    produce; an exhausted tape produces zeros. Each distribution maps the
    next raw number into its range. *)
Definition Tape : Type := list Z.

Definition tape_next (t : Tape) : Z * Tape :=
  match t with
  | [] => (0%Z, [])
  | x :: t' => (x, t')
  end.

(** The raw number as a fraction in [0, 1). *)
Definition tape_fraction (x : Z) : Q := (x mod 1024)%Z # 1024.

#[export] Instance Tape_RandomEngine : RandomEngine Tape := {
  uniform_int_distribution a b t :=
    let (x, t') := tape_next t in ((a + x mod (b - a + 1))%Z, t');
  uniform_real_distribution a b t :=
    let (x, t') := tape_next t in ((a + (b - a) * tape_fraction x)%Q, t');
  bernoulli_distribution p t :=
    let (x, t') := tape_next t in (Qlt_bool (tape_fraction x) p, t')
}.

(** An engine at the upper end of every range: each integer and each real
    draw returns the upper bound it is given. Rounding makes a real draw do
    so on occasion; this engine does it always. *)
Inductive UpperEnd : Type := upper_end.

#[export] Instance UpperEnd_RandomEngine : RandomEngine UpperEnd := {
  uniform_int_distribution a b e := (b, e);
  uniform_real_distribution a b e := (b, e);
  bernoulli_distribution p e := (Qle_bool 1 p, e)
}.

Definition uniform_weights (w d : Q) : KindArray ExprKindWeightInfo :=
  let i := {| initial_weight := w; dampening_factor := d |} in
  {| at_IntegerConstant := i; at_DoubleConstant := i; at_VariableExpr := i;
     at_BinaryExpr := i; at_UnaryExpr := i |}.

(** All five kinds enabled with weight 1; the recursive kinds halve their
    weight at each use; the operators [+ - * /] and the first two unary
    operators are enabled. *)
Definition sample_config : GenConfig := {|
  int_const_min := 0;
  int_const_max := 1000;
  double_constant_min := 0;
  double_constant_max := 10;
  bin_op_mask := 15;
  un_op_mask := 3;
  parenthesize_prob := 1 # 4;
  const_prob := 1 # 2;
  volatile_prob := 1 # 2;
  expr_kind_weights :=
    KindArray.set
      (KindArray.set (uniform_weights 1 1) ExprKind.BinaryExpr
         {| initial_weight := 1; dampening_factor := 1 # 2 |})
      ExprKind.UnaryExpr {| initial_weight := 1; dampening_factor := 1 # 2 |};
  type_kind_weights := []
|}.

(** The weights a top-level run starts from under [sample_config]. *)
Definition sample_weights : Weights := initial_weights sample_config [].

(** The default randomness source over a scripted engine. *)
Definition default_rng (t : Tape) : DefaultGeneratorRng (E := Tape) :=
  {| rng_ := t |}.

(** No draw of the list is a type-kind or a cv-qualifier draw. *)
Definition no_type_side_draws (l : list Draw) : bool :=
  forallb (fun d => negb (is_type_side_draw d)) l.

(** Two configurations that agree on every field except the type-kind
    weight table, [const_prob] and [volatile_prob]. *)
Definition same_expression_settings (c1 c2 : GenConfig) : Prop :=
  int_const_min c1 = int_const_min c2 /\
  int_const_max c1 = int_const_max c2 /\
  double_constant_min c1 = double_constant_min c2 /\
  double_constant_max c1 = double_constant_max c2 /\
  bin_op_mask c1 = bin_op_mask c2 /\
  un_op_mask c1 = un_op_mask c2 /\
  parenthesize_prob c1 = parenthesize_prob c2 /\
  expr_kind_weights c1 = expr_kind_weights c2.

(** The scenario configuration: integer constants only, all in [0, 0]. *)
Definition integer_only_config (parenthesize_prob : Q) : GenConfig := {|
  int_const_min := 0;
  int_const_max := 0;
  double_constant_min := 0;
  double_constant_max := 1;
  bin_op_mask := 15;
  un_op_mask := 3;
  parenthesize_prob := parenthesize_prob;
  const_prob := 0;
  volatile_prob := 0;
  expr_kind_weights :=
    KindArray.set (uniform_weights 0 1) ExprKind.IntegerConstant
      {| initial_weight := 1; dampening_factor := 1 |};
  type_kind_weights := []
|}.

(** [sample_config] with other type-side settings. *)
Definition sample_config_retyped : GenConfig := {|
  int_const_min := int_const_min sample_config;
  int_const_max := int_const_max sample_config;
  double_constant_min := double_constant_min sample_config;
  double_constant_max := double_constant_max sample_config;
  bin_op_mask := bin_op_mask sample_config;
  un_op_mask := un_op_mask sample_config;
  parenthesize_prob := parenthesize_prob sample_config;
  const_prob := 1;
  volatile_prob := 0;
  expr_kind_weights := expr_kind_weights sample_config;
  type_kind_weights := [{| initial_weight := 3; dampening_factor := 1 # 3 |}]
|}.

(** A [Weights] value from its five expression slots. *)
Definition weights_of (wi wd wv wb wu : Q) (tw : list Q) : Weights :=
  {| expr_weights :=
       {| at_IntegerConstant := wi; at_DoubleConstant := wd;
          at_VariableExpr := wv; at_BinaryExpr := wb; at_UnaryExpr := wu |};
     type_weights := tw |}.

(** [sample_config] with no binary operator enabled. *)
Definition no_bin_op_config : GenConfig := {|
  int_const_min := int_const_min sample_config;
  int_const_max := int_const_max sample_config;
  double_constant_min := double_constant_min sample_config;
  double_constant_max := double_constant_max sample_config;
  bin_op_mask := 0;
  un_op_mask := un_op_mask sample_config;
  parenthesize_prob := parenthesize_prob sample_config;
  const_prob := const_prob sample_config;
  volatile_prob := volatile_prob sample_config;
  expr_kind_weights := expr_kind_weights sample_config;
  type_kind_weights := type_kind_weights sample_config
|}.

(** The outcome is a returned value or an exhausted budget, not a failed
    assertion. *)
Definition no_failure {A : Type} (x : result A) : Prop :=
  match x with
  | Abort _ => False
  | _ => True
  end.

(** ** Engines that answer alike

    Two engine objects constructed from the same seed are two objects; what
    they share is the stream of answers they give. A relation [alike] on
    engine states is a bisimulation when each of the three distributions,
    called with the same parameters on two related states, draws the same
    value from both and leaves them related. Equality is one such relation;
    two engines whose states differ in a part that no draw reads are
    another. *)
Record EngineBisimulation {E : Type} {eng : RandomEngine E}
    (alike : E -> E -> Prop) : Prop := {
  alike_uniform_int : forall a b e1 e2, alike e1 e2 ->
    fst (uniform_int_distribution a b e1) = fst (uniform_int_distribution a b e2)
    /\ alike (snd (uniform_int_distribution a b e1))
             (snd (uniform_int_distribution a b e2));
  alike_uniform_real : forall a b e1 e2, alike e1 e2 ->
    fst (uniform_real_distribution a b e1) = fst (uniform_real_distribution a b e2)
    /\ alike (snd (uniform_real_distribution a b e1))
             (snd (uniform_real_distribution a b e2));
  alike_bernoulli : forall p e1 e2, alike e1 e2 ->
    fst (bernoulli_distribution p e1) = fst (bernoulli_distribution p e2)
    /\ alike (snd (bernoulli_distribution p e1))
             (snd (bernoulli_distribution p e2))
}.

Arguments alike_uniform_int {E eng alike} _ a b [e1 e2] _.
Arguments alike_uniform_real {E eng alike} _ a b [e1 e2] _.
Arguments alike_bernoulli {E eng alike} _ p [e1 e2] _.

(** Two runs end alike: both return the same value and leave related
    sources, or both stop at the same failure, or both exceed the budget. *)
Definition alike_outcomes {R1 R2 A : Type} (rel : R1 -> R2 -> Prop)
    (x1 : result (A * R1)) (x2 : result (A * R2)) : Prop :=
  match x1, x2 with
  | Ok (a1, r1), Ok (a2, r2) => a1 = a2 /\ rel r1 r2
  | Abort f1, Abort f2 => f1 = f2
  | OutOfFuel, OutOfFuel => True
  | _, _ => False
  end.

(** Two recorded default sources: the same record so far, on engines that
    answer alike. *)
Definition alike_recordings {E : Type} (alike : E -> E -> Prop)
    (r1 r2 : Recording (DefaultGeneratorRng (E := E))) : Prop :=
  draws r1 = draws r2 /\ alike (rng_ (source r1)) (rng_ (source r2)).

(** Two tapes that script the same stream of raw numbers: they differ at
    most in zeros at the end, which an exhausted tape produces anyway. *)
Definition same_stream (t1 t2 : Tape) : Prop :=
  forall n, nth n t1 0%Z = nth n t2 0%Z.

(** ** Checks on generated trees *)

(** [p] holds at [e] and at every subtree of [e]. *)
Fixpoint all_nodes (p : Expr -> bool) (e : Expr) : bool :=
  p e &&
  match e with
  | UnaryExpr _ x => all_nodes p x
  | BinaryExpr l _ r => all_nodes p l && all_nodes p r
  | ParenthesizedExpr x => all_nodes p x
  | _ => true
  end.

Definition is_parenthesized (e : Expr) : bool :=
  match e with
  | ParenthesizedExpr _ => true
  | _ => false
  end.

(** The expression inside a pair of parentheses, or the expression. *)
Definition unwrapped (e : Expr) : Expr :=
  match e with
  | ParenthesizedExpr x => x
  | _ => e
  end.

(** A pair of parentheses directly around another pair. *)
Definition no_double_parentheses_at (e : Expr) : bool :=
  match e with
  | ParenthesizedExpr (ParenthesizedExpr _) => false
  | _ => true
  end.

(** The kind that generated a node; parentheses are not a drawn kind. *)
Definition node_kind (e : Expr) : option ExprKind.t :=
  match e with
  | IntegerConstant _ => Some ExprKind.IntegerConstant
  | DoubleConstant _ => Some ExprKind.DoubleConstant
  | VariableExpr _ => Some ExprKind.VariableExpr
  | UnaryExpr _ _ => Some ExprKind.UnaryExpr
  | BinaryExpr _ _ _ => Some ExprKind.BinaryExpr
  | ParenthesizedExpr _ => None
  end.

Definition not_of_kind (k : ExprKind.t) (e : Expr) : bool :=
  match node_kind e with
  | Some k' => negb (ExprKind.eqb k' k)
  | None => true
  end.

(** The number of draws that generating a tree takes: three for a constant
    (kind, value, parenthesization), two for a variable, three for an
    operator node besides those of its children; parentheses take none. *)
Fixpoint draw_count (e : Expr) : nat :=
  match e with
  | IntegerConstant _ => 3
  | DoubleConstant _ => 3
  | VariableExpr _ => 2
  | UnaryExpr _ x => 3 + draw_count x
  | BinaryExpr l _ r => 3 + draw_count l + draw_count r
  | ParenthesizedExpr x => draw_count x
  end.

Section TreeChecks.
Context {hdr : AstHeader}.

(** The operands of an operator node bind at least as tightly as the
    parenthesization rules of [gen_binary_expr] and [gen_unary_expr] ask. *)
Definition operands_bind_tighter_at (e : Expr) : bool :=
  match e with
  | BinaryExpr l op r =>
      (expr_precedence l <=? bin_op_precedence op)%Z
      && (expr_precedence r <? bin_op_precedence op)%Z
  | UnaryExpr _ x => (expr_precedence x <=? UnaryExpr_PRECEDENCE)%Z
  | _ => true
  end.

(** An operand is in parentheses exactly when the rule asks for them, and
    parentheses are never doubled. *)
Definition parentheses_needed_at (e : Expr) : bool :=
  match e with
  | BinaryExpr l op r =>
      Bool.eqb (is_parenthesized l)
        (expr_precedence (unwrapped l) >? bin_op_precedence op)%Z
      && Bool.eqb (is_parenthesized r)
           (expr_precedence (unwrapped r) >=? bin_op_precedence op)%Z
  | UnaryExpr _ x =>
      Bool.eqb (is_parenthesized x)
        (expr_precedence (unwrapped x) >? UnaryExpr_PRECEDENCE)%Z
  | ParenthesizedExpr x => negb (is_parenthesized x)
  | _ => true
  end.

(** The operator of a node is one that the configuration enables. *)
Definition operator_enabled_at (cfg : GenConfig) (e : Expr) : bool :=
  match e with
  | BinaryExpr _ (BinOp_of_index i) _ =>
      (i <? NUM_BIN_OPS)%nat && bitset_test (bin_op_mask cfg) i
  | UnaryExpr (UnOp_of_index i) _ =>
      (i <? NUM_UN_OPS)%nat && bitset_test (un_op_mask cfg) i
  | _ => true
  end.

(** An integer leaf holds a value of the configured range, a double leaf a
    value at or above the configured minimum, and a variable is [VAR]. *)
Definition leaf_in_range_at (cfg : GenConfig) (e : Expr) : bool :=
  match e with
  | IntegerConstant v =>
      (int_const_min cfg <=? v)%Z && (v <=? int_const_max cfg)%Z
  | DoubleConstant v => Qle_bool (double_constant_min cfg) v
  | VariableExpr name => String.eqb name VAR
  | _ => true
  end.

End TreeChecks.

(** Two configurations that agree on every field read by the generator
    except the dampening factors of the three kinds without children. *)
Definition same_but_leaf_dampening (c1 c2 : GenConfig) : Prop :=
  int_const_min c1 = int_const_min c2 /\
  int_const_max c1 = int_const_max c2 /\
  double_constant_min c1 = double_constant_min c2 /\
  double_constant_max c1 = double_constant_max c2 /\
  bin_op_mask c1 = bin_op_mask c2 /\
  un_op_mask c1 = un_op_mask c2 /\
  parenthesize_prob c1 = parenthesize_prob c2 /\
  KindArray.map initial_weight (expr_kind_weights c1)
  = KindArray.map initial_weight (expr_kind_weights c2) /\
  dampening_factor (at_BinaryExpr (expr_kind_weights c1))
  = dampening_factor (at_BinaryExpr (expr_kind_weights c2)) /\
  dampening_factor (at_UnaryExpr (expr_kind_weights c1))
  = dampening_factor (at_UnaryExpr (expr_kind_weights c2)).

(** [sample_config] with other dampening factors for the leaf kinds. *)
Definition sample_config_leaf_damped : GenConfig := {|
  int_const_min := int_const_min sample_config;
  int_const_max := int_const_max sample_config;
  double_constant_min := double_constant_min sample_config;
  double_constant_max := double_constant_max sample_config;
  bin_op_mask := bin_op_mask sample_config;
  un_op_mask := un_op_mask sample_config;
  parenthesize_prob := parenthesize_prob sample_config;
  const_prob := const_prob sample_config;
  volatile_prob := volatile_prob sample_config;
  expr_kind_weights :=
    KindArray.set
      (KindArray.set
         (KindArray.set (expr_kind_weights sample_config)
            ExprKind.IntegerConstant
            {| initial_weight := 1; dampening_factor := 1 # 7 |})
         ExprKind.DoubleConstant
         {| initial_weight := 1; dampening_factor := 0 |})
      ExprKind.VariableExpr {| initial_weight := 1; dampening_factor := 5 |};
  type_kind_weights := type_kind_weights sample_config
|}.

(** [sample_config] with no parenthesization draw ever succeeding. *)
Definition sample_config_no_parens : GenConfig := {|
  int_const_min := int_const_min sample_config;
  int_const_max := int_const_max sample_config;
  double_constant_min := double_constant_min sample_config;
  double_constant_max := double_constant_max sample_config;
  bin_op_mask := bin_op_mask sample_config;
  un_op_mask := un_op_mask sample_config;
  parenthesize_prob := 0;
  const_prob := const_prob sample_config;
  volatile_prob := volatile_prob sample_config;
  expr_kind_weights := expr_kind_weights sample_config;
  type_kind_weights := type_kind_weights sample_config
|}.

(** The weights a recorded draw of a kind was made on. *)
Definition drawn_weights (d : Draw) : option Weights :=
  match d with
  | DrawExprKind w => Some w
  | _ => None
  end.

(** The weights [w'] of a later step, seen from the weights [w] of an
    earlier one: same slots for the kinds without children, same type
    slots, and recursive slots between zero and those of [w]. *)
Definition decayed_from (w w' : Weights) : Prop :=
  at_IntegerConstant (expr_weights w') = at_IntegerConstant (expr_weights w) /\
  at_DoubleConstant (expr_weights w') = at_DoubleConstant (expr_weights w) /\
  at_VariableExpr (expr_weights w') = at_VariableExpr (expr_weights w) /\
  type_weights w' = type_weights w /\
  (0 <= at_BinaryExpr (expr_weights w') <= at_BinaryExpr (expr_weights w))%Q /\
  (0 <= at_UnaryExpr (expr_weights w') <= at_UnaryExpr (expr_weights w))%Q.

(** A script for the engine and the tree [7 * (5 + 9)] that [generate]
    builds from it under [sample_config]; in [sample_tape_parens] two of the
    parenthesization draws succeed. *)
Definition sample_tape : Tape :=
  [700; 2; 0; 7; 999; 700; 0; 0; 5; 999; 0; 9; 999; 999; 999]%Z.

Definition sample_tape_parens : Tape :=
  [700; 2; 0; 7; 0; 700; 0; 0; 5; 999; 0; 9; 999; 0; 999]%Z.

Definition sample_tree : Expr :=
  BinaryExpr (IntegerConstant 7) (BinOp_of_index 2)
    (ParenthesizedExpr
       (BinaryExpr (IntegerConstant 5) (BinOp_of_index 0) (IntegerConstant 9))).

Definition sample_tree_parens : Expr :=
  BinaryExpr (ParenthesizedExpr (IntegerConstant 7)) (BinOp_of_index 2)
    (ParenthesizedExpr
       (BinaryExpr (IntegerConstant 5) (BinOp_of_index 0) (IntegerConstant 9))).

(** * Properties *)

Local Open Scope gen_scope.

(** ** The monad *)

Lemma bind_Ok {R A B : Type} (m : M R A) (k : A -> M R B) r b r' :
  bind m k r = Ok (b, r') ->
  exists a r1, m r = Ok (a, r1) /\ k a r1 = Ok (b, r').
Proof.
  unfold bind. destruct (m r) as [[a r1]| |]; try discriminate.
  intros H. exists a, r1. split; [reflexivity | exact H].
Qed.

Lemma ret_Ok {R A : Type} (a b : A) (r r' : R) :
  ret a r = Ok (b, r') -> a = b /\ r = r'.
Proof. unfold ret. intros H. inversion H. split; reflexivity. Qed.

Ltac invert_run :=
  repeat match goal with
    | H : bind _ _ _ = Ok _ |- _ =>
        let a := fresh "a" in
        let r := fresh "r" in
        let H1 := fresh "Hrun" in
        let H2 := fresh "Hrun" in
        apply bind_Ok in H; destruct H as (a & r & H1 & H2)
    | H : ret _ _ = Ok _ |- _ =>
        apply ret_Ok in H; destruct H; subst
    end.

Lemma parenthesized_neq (e : Expr) : ParenthesizedExpr e <> e.
Proof.
  induction e; try discriminate.
  intros H. injection H as H. exact (IHe H).
Qed.

(** ** Parenthesization of operands *)

Section Parenthesization.
Context {hdr : AstHeader} {R : Type} {rng : GeneratorRng R}.
Variable cfg_ : GenConfig.

(** What [gen_binary_expr] returns, whatever the callee that generates the
    children. *)
Lemma gen_binary_expr_Ok (rec : Weights -> M R Expr) weights r e r' :
  gen_binary_expr cfg_ rec weights r = Ok (e, r') ->
  exists op l0 r0 r1 r2,
    gen_bin_op (bin_op_mask cfg_) r = Ok (op, r1) /\
    rec weights r1 = Ok (l0, r2) /\
    rec weights r2 = Ok (r0, r') /\
    e = BinaryExpr
          (if (expr_precedence l0 >? bin_op_precedence op)%Z
           then ParenthesizedExpr l0 else l0)
          op
          (if (expr_precedence r0 >=? bin_op_precedence op)%Z
           then ParenthesizedExpr r0 else r0).
Proof.
  unfold gen_binary_expr. intros H. invert_run.
  eauto 10.
Qed.

Lemma gen_unary_expr_Ok (rec : Weights -> M R Expr) weights r e r' :
  gen_unary_expr cfg_ rec weights r = Ok (e, r') ->
  exists e0 op r1,
    rec weights r = Ok (e0, r1) /\
    gen_un_op (un_op_mask cfg_) r1 = Ok (op, r') /\
    e = UnaryExpr op
          (if (expr_precedence e0 >? UnaryExpr_PRECEDENCE)%Z
           then ParenthesizedExpr e0 else e0).
Proof.
  unfold gen_unary_expr. intros H. invert_run.
  eauto 10.
Qed.

(** C1. Every run of [gen_binary_expr] that returns draws an operator
    [op], generates a left child [l0] and a right child [r0], and returns
    [BinaryExpr lhs op rhs] where [lhs] is [l0] wrapped in
    [ParenthesizedExpr] if and only if the precedence of [l0] is strictly
    greater than that of [op] (and is [l0] itself otherwise), and [rhs] is
    [r0] wrapped if and only if the precedence of [r0] is greater than or
    equal to that of [op]. When parentheses bind tighter than every binary
    operator, it follows that [precedence lhs <= precedence op] and
    [precedence rhs < precedence op]. *)
Theorem gen_binary_expr_parenthesizes (fuel : nat) weights r e r' :
  gen_binary_expr cfg_ (gen_with_weights cfg_ fuel) weights r = Ok (e, r') ->
  exists op l0 r0 lhs rhs r1 r2,
    gen_bin_op (bin_op_mask cfg_) r = Ok (op, r1) /\
    gen_with_weights cfg_ fuel weights r1 = Ok (l0, r2) /\
    gen_with_weights cfg_ fuel weights r2 = Ok (r0, r') /\
    e = BinaryExpr lhs op rhs /\
    (lhs = ParenthesizedExpr l0 <->
       (expr_precedence l0 > bin_op_precedence op)%Z) /\
    (lhs = l0 <-> (expr_precedence l0 <= bin_op_precedence op)%Z) /\
    (rhs = ParenthesizedExpr r0 <->
       (expr_precedence r0 >= bin_op_precedence op)%Z) /\
    (rhs = r0 <-> (expr_precedence r0 < bin_op_precedence op)%Z) /\
    ((forall op', (ParenthesizedExpr_PRECEDENCE < bin_op_precedence op')%Z) ->
     (expr_precedence lhs <= bin_op_precedence op)%Z /\
     (expr_precedence rhs < bin_op_precedence op)%Z).
Proof.
  intros H. apply gen_binary_expr_Ok in H.
  destruct H as (op & l0 & r0 & r1 & r2 & Hop & Hl & Hr & ->).
  exists op, l0, r0.
  eexists; eexists; exists r1, r2.
  repeat (split; [eassumption || reflexivity |]).
  pose proof (@parenthesized_neq l0) as Nl.
  pose proof (@parenthesized_neq r0) as Nr.
  destruct (Z.gtb_spec (expr_precedence l0) (bin_op_precedence op)) as [Gl|Gl];
  destruct (Z.geb_spec (expr_precedence r0) (bin_op_precedence op)) as [Gr|Gr].
  all: repeat split; intros; try lia; try congruence; try reflexivity.
  all: try (exfalso; congruence).
  all: cbn [expr_precedence];
    match goal with
    | Hp : forall _, (_ < _)%Z |- _ => pose proof (Hp op)
    end; lia.
Qed.

(** C9. Every run of [gen_unary_expr] that returns generates an operand
    [e0], draws an operator [op], and returns [UnaryExpr op operand] where
    [operand] is [e0] wrapped in [ParenthesizedExpr] if and only if the
    precedence of [e0] is strictly greater than [UnaryExpr::PRECEDENCE],
    and is [e0] itself otherwise. *)
Theorem gen_unary_expr_parenthesizes (fuel : nat) weights r e r' :
  gen_unary_expr cfg_ (gen_with_weights cfg_ fuel) weights r = Ok (e, r') ->
  exists e0 op operand r1,
    gen_with_weights cfg_ fuel weights r = Ok (e0, r1) /\
    gen_un_op (un_op_mask cfg_) r1 = Ok (op, r') /\
    e = UnaryExpr op operand /\
    (operand = ParenthesizedExpr e0 <->
       (expr_precedence e0 > UnaryExpr_PRECEDENCE)%Z) /\
    (operand = e0 <-> (expr_precedence e0 <= UnaryExpr_PRECEDENCE)%Z).
Proof.
  intros H. apply gen_unary_expr_Ok in H.
  destruct H as (e0 & op & r1 & He & Hop & ->).
  exists e0, op. eexists. exists r1.
  repeat (split; [eassumption || reflexivity |]).
  pose proof (@parenthesized_neq e0) as Ne.
  destruct (Z.gtb_spec (expr_precedence e0) UnaryExpr_PRECEDENCE) as [G|G].
  all: repeat split; intros; try lia; try congruence; try reflexivity.
  all: exfalso; congruence.
Qed.

End Parenthesization.

Section ParenthesizationRuns.
#[local] Existing Instance sample_header.

(** A run that builds [7 * (5 + 9)]: the right child [5 + 9] binds weaker
    than [*] and is wrapped, the left child [7] is not. *)
Lemma gen_binary_expr_parenthesizes_witness :
  let r := default_rng [2; 0; 7; 999; 700; 0; 0; 5; 999; 0; 9; 999; 999]%Z in
  let e := BinaryExpr (IntegerConstant 7) (BinOp_of_index 2)
             (ParenthesizedExpr
                (BinaryExpr (IntegerConstant 5) (BinOp_of_index 0)
                   (IntegerConstant 9))) in
  exists op l0 r0 lhs rhs r1 r2,
    gen_bin_op (bin_op_mask sample_config) r = Ok (op, r1) /\
    gen_with_weights sample_config 2 sample_weights r1 = Ok (l0, r2) /\
    gen_with_weights sample_config 2 sample_weights r2
      = Ok (r0, default_rng []) /\
    e = BinaryExpr lhs op rhs /\
    (lhs = ParenthesizedExpr l0 <->
       (expr_precedence l0 > bin_op_precedence op)%Z) /\
    (lhs = l0 <-> (expr_precedence l0 <= bin_op_precedence op)%Z) /\
    (rhs = ParenthesizedExpr r0 <->
       (expr_precedence r0 >= bin_op_precedence op)%Z) /\
    (rhs = r0 <-> (expr_precedence r0 < bin_op_precedence op)%Z) /\
    ((forall op', (ParenthesizedExpr_PRECEDENCE < bin_op_precedence op')%Z) ->
     (expr_precedence lhs <= bin_op_precedence op)%Z /\
     (expr_precedence rhs < bin_op_precedence op)%Z).
Proof.
  intros r e.
  apply (gen_binary_expr_parenthesizes sample_config 2 sample_weights r).
  vm_compute. reflexivity.
Defined.

(** A run that builds the unary operator applied to [(5 + 9)]. *)
Lemma gen_unary_expr_parenthesizes_witness :
  let r := default_rng [700; 0; 0; 5; 999; 0; 9; 999; 999; 1]%Z in
  let e := UnaryExpr (UnOp_of_index 1)
             (ParenthesizedExpr
                (BinaryExpr (IntegerConstant 5) (BinOp_of_index 0)
                   (IntegerConstant 9))) in
  exists e0 op operand r1,
    gen_with_weights sample_config 2 sample_weights r = Ok (e0, r1) /\
    gen_un_op (un_op_mask sample_config) r1 = Ok (op, default_rng []) /\
    e = UnaryExpr op operand /\
    (operand = ParenthesizedExpr e0 <->
       (expr_precedence e0 > UnaryExpr_PRECEDENCE)%Z) /\
    (operand = e0 <-> (expr_precedence e0 <= UnaryExpr_PRECEDENCE)%Z).
Proof.
  intros r e.
  apply (gen_unary_expr_parenthesizes sample_config 2 sample_weights r).
  vm_compute. reflexivity.
Defined.

End ParenthesizationRuns.

(** ** Bit selection *)

Lemma bitset_count_S (mask : Z) (n : nat) :
  bitset_count (S n) mask
  = (bitset_count n mask + (if bitset_test mask n then 1 else 0))%nat.
Proof.
  unfold bitset_count. rewrite seq_S, filter_app, length_app. simpl.
  destruct (bitset_test mask n); reflexivity.
Qed.

Lemma bitset_count_mono (mask : Z) (n m : nat) :
  (n <= m)%nat -> (bitset_count n mask <= bitset_count m mask)%nat.
Proof.
  induction 1 as [|m _ IH]; [lia|]. rewrite bitset_count_S. lia.
Qed.

Lemma bitset_any_count (N : nat) (mask : Z) :
  bitset_any N mask = true <-> (1 <= bitset_count N mask)%nat.
Proof.
  unfold bitset_any, bitset_count. induction (seq 0 N) as [|x l IH]; simpl.
  - split; [discriminate | lia].
  - destruct (bitset_test mask x); simpl; [split; [lia | reflexivity] | exact IH].
Qed.

Lemma bitset_any_zero (N : nat) : bitset_any N 0 = false.
Proof.
  unfold bitset_any. induction (seq 0 N) as [|x l IH]; [reflexivity|].
  simpl. unfold bitset_test at 1. rewrite Z.testbit_0_l. exact IH.
Qed.

Lemma nth_set_bit_at_inj_choice mask c1 c2 p :
  nth_set_bit_at mask c1 p -> nth_set_bit_at mask c2 p -> c1 = c2.
Proof. intros [_ H1] [_ H2]. congruence. Qed.

Lemma nth_set_bit_at_inj_pos mask c p q :
  nth_set_bit_at mask c p -> nth_set_bit_at mask c q -> p = q.
Proof.
  intros [Tp Cp] [Tq Cq].
  destruct (Nat.lt_trichotomy p q) as [L | [E | L]]; [exfalso | exact E | exfalso].
  - pose proof (@bitset_count_mono mask (S p) q L) as Mo.
    rewrite bitset_count_S, Tq in Cq. lia.
  - pose proof (@bitset_count_mono mask (S q) p L) as Mo.
    rewrite bitset_count_S, Tp in Cp. lia.
Qed.

(** The scan, started at index [i] with the count of the set bits below [i],
    stops at the first index where the running count reaches [choice]. *)
Lemma pick_scan_finds (mask : Z) (choice : Z) :
  forall steps i running_ones,
    running_ones = Z.of_nat (bitset_count i mask) ->
    (running_ones < choice)%Z ->
    (choice <= Z.of_nat (bitset_count (i + steps) mask))%Z ->
    exists p,
      pick_scan mask choice steps i running_ones = Ok p /\
      (i <= p < i + steps)%nat /\
      nth_set_bit_at mask choice p /\
      (forall j, (j < p)%nat ->
         (Z.of_nat (bitset_count (S j) mask) < choice)%Z).
Proof.
  induction steps as [|steps IH]; intros i running_ones Hr Hlt Hle.
  - rewrite Nat.add_0_r in Hle. lia.
  - cbn [pick_scan].
    pose proof (bitset_count_S mask i) as HS.
    destruct (bitset_test mask i) eqn:T.
    + destruct (Z.eqb_spec (running_ones + 1) choice) as [Heq|Hne].
      * exists i. split; [reflexivity|]. split; [lia|]. split.
        -- split; [exact T|]. rewrite HS. lia.
        -- intros j Hj.
           pose proof (@bitset_count_mono mask (S j) i ltac:(lia)). lia.
      * destruct (IH (S i) (running_ones + 1)%Z) as (p & Hp & Hrange & Hat & Hfirst).
        -- rewrite HS. lia.
        -- lia.
        -- replace (S i + steps)%nat with (i + S steps)%nat by lia. exact Hle.
        -- exists p. split; [exact Hp|]. split; [lia|]. split; assumption.
    + destruct (Z.eqb_spec running_ones choice) as [Heq|Hne]; [lia|].
      destruct (IH (S i) running_ones) as (p & Hp & Hrange & Hat & Hfirst).
      * rewrite HS. lia.
      * lia.
      * replace (S i + steps)%nat with (i + S steps)%nat by lia. exact Hle.
      * exists p. split; [exact Hp|]. split; [lia|]. split; assumption.
Qed.

Lemma pick_scan_from_start (N : nat) (mask : Z) (choice : Z) :
  (1 <= choice <= Z.of_nat (bitset_count N mask))%Z ->
  exists p,
    pick_scan mask choice N 0 0 = Ok p /\ (p < N)%nat /\
    nth_set_bit_at mask choice p /\
    (forall j, (j < p)%nat -> (Z.of_nat (bitset_count (S j) mask) < choice)%Z).
Proof.
  intros [H1 H2].
  destruct (@pick_scan_finds mask choice N 0%nat 0%Z) as (p & Hp & Hr & Hat & Hf).
  - reflexivity.
  - lia.
  - exact H2.
  - exists p. repeat split; try assumption; try lia; apply Hat.
Qed.

Section BitSelection.
Context {E : Type} {eng : RandomEngine E}.
Hypothesis contract : EngineContract E.

(** C2. On a mask of [N] bits with at least one set bit, [pick_nth_set_bit]
    draws [choice] in [1, popcount], and returns the position [p] found by
    the scan in increasing index order: [p] is below [N], its bit is set,
    the running count of set bits first equals [choice] at [p]. The scan maps
    the draws [1 .. popcount] one-to-one onto the set positions: every draw
    gives a set position, two draws giving the same position are equal, and
    every set position is given by a draw. A uniform draw therefore selects
    each set position with probability [1/popcount]. *)
Theorem pick_nth_set_bit_selects (N : nat) (mask : Z) (rng : E) :
  bitset_any N mask = true ->
  let popcount := Z.of_nat (bitset_count N mask) in
  let choice := fst (uniform_int_distribution 1 popcount rng) in
  (1 <= choice <= popcount)%Z /\
  (exists p,
     pick_nth_set_bit N mask rng
       = Ok (p, snd (uniform_int_distribution 1 popcount rng)) /\
     (p < N)%nat /\
     bitset_test mask p = true /\
     Z.of_nat (bitset_count (S p) mask) = choice /\
     (forall j, (j < p)%nat ->
        (Z.of_nat (bitset_count (S j) mask) < choice)%Z)) /\
  (forall c, (1 <= c <= popcount)%Z ->
     exists p, pick_scan mask c N 0 0 = Ok p /\
               (p < N)%nat /\ bitset_test mask p = true) /\
  (forall c1 c2 p, (1 <= c1 <= popcount)%Z -> (1 <= c2 <= popcount)%Z ->
     pick_scan mask c1 N 0 0 = Ok p -> pick_scan mask c2 N 0 0 = Ok p ->
     c1 = c2) /\
  (forall p, (p < N)%nat -> bitset_test mask p = true ->
     exists c, (1 <= c <= popcount)%Z /\ pick_scan mask c N 0 0 = Ok p).
Proof.
  intros Hany popcount choice.
  assert (Hpc : (1 <= popcount)%Z).
  { apply bitset_any_count in Hany. unfold popcount. lia. }
  assert (Hch : (1 <= choice <= popcount)%Z).
  { apply (uniform_int_range contract 1 popcount rng). exact Hpc. }
  split; [exact Hch|]. split; [|split; [|split]].
  - destruct (@pick_scan_from_start N mask choice Hch) as (p & Hp & Hlt & [T C] & Hf).
    exists p. split.
    + unfold pick_nth_set_bit. rewrite Hany. cbn [negb].
      subst choice popcount.
      destruct (uniform_int_distribution 1 (Z.of_nat (bitset_count N mask)) rng)
        as [c rng'].
      cbn [fst snd] in *. rewrite Hp. reflexivity.
    + repeat split; assumption.
  - intros c Hc.
    destruct (@pick_scan_from_start N mask c Hc) as (p & Hp & Hlt & [T C] & Hf).
    exists p. repeat split; assumption.
  - intros c1 c2 p H1 H2 S1 S2.
    destruct (@pick_scan_from_start N mask c1 H1) as (p1 & Hp1 & _ & At1 & _).
    destruct (@pick_scan_from_start N mask c2 H2) as (p2 & Hp2 & _ & At2 & _).
    assert (p1 = p) by congruence. assert (p2 = p) by congruence. subst p1 p2.
    exact (nth_set_bit_at_inj_choice At1 At2).
  - intros p Hp T.
    set (c := Z.of_nat (bitset_count (S p) mask)).
    assert (Hc : (1 <= c <= popcount)%Z).
    { unfold c, popcount. split.
      - rewrite bitset_count_S, T. lia.
      - pose proof (@bitset_count_mono mask (S p) N ltac:(lia)). lia. }
    exists c. split; [exact Hc|].
    destruct (@pick_scan_from_start N mask c Hc) as (q & Hq & _ & At & _).
    assert (q = p).
    { apply (@nth_set_bit_at_inj_pos mask c); [exact At|]. split; [exact T | reflexivity]. }
    subst q. exact Hq.
Qed.

End BitSelection.

(** ** The scripted engine meets the contract *)

Lemma Qlt_bool_iff (x y : Q) : Qlt_bool x y = true <-> (x < y)%Q.
Proof.
  unfold Qlt_bool. rewrite negb_true_iff. split.
  - intros H. apply Qnot_le_lt. intros L. apply Qle_bool_iff in L. congruence.
  - intros H. destruct (Qle_bool y x) eqn:L; [|reflexivity].
    apply Qle_bool_iff in L. exfalso. exact (Qlt_not_le _ _ H L).
Qed.

Lemma Qlt_bool_false_iff (x y : Q) : Qlt_bool x y = false <-> (y <= x)%Q.
Proof.
  unfold Qlt_bool. rewrite negb_false_iff. apply Qle_bool_iff.
Qed.

Lemma tape_fraction_range (x : Z) : (0 <= tape_fraction x)%Q /\ (tape_fraction x < 1)%Q.
Proof.
  pose proof (Z.mod_pos_bound x 1024 ltac:(lia)) as B.
  unfold tape_fraction, Qle, Qlt. cbn [Qnum Qden]. lia.
Qed.

Lemma Tape_contract : EngineContract Tape.
Proof.
  constructor.
  - intros a b t H. cbn. destruct (tape_next t) as [x t']. cbn [fst].
    pose proof (Z.mod_pos_bound x (b - a + 1) ltac:(lia)). lia.
  - intros a b t H. cbn. destruct (tape_next t) as [x t']. cbn [fst].
    pose proof (tape_fraction_range x) as [F0 F1]. nra.
  - intros p t H. cbn. destruct (tape_next t) as [x t']. cbn [fst].
    apply Qlt_bool_false_iff. rewrite H. apply tape_fraction_range.
  - intros p t H. cbn. destruct (tape_next t) as [x t']. cbn [fst].
    apply Qlt_bool_iff. rewrite H. apply tape_fraction_range.
Qed.

(** The mask [0b1011] with the draw 2: the scan returns position 1. *)
Lemma pick_nth_set_bit_selects_witness :
  let popcount := Z.of_nat (bitset_count 4 11) in
  let choice := fst (uniform_int_distribution 1 popcount [1%Z]) in
  (1 <= choice <= popcount)%Z /\
  (exists p,
     pick_nth_set_bit 4 11 [1%Z]
       = Ok (p, snd (uniform_int_distribution 1 popcount [1%Z])) /\
     (p < 4)%nat /\
     bitset_test 11 p = true /\
     Z.of_nat (bitset_count (S p) 11) = choice /\
     (forall j, (j < p)%nat ->
        (Z.of_nat (bitset_count (S j) 11) < choice)%Z)) /\
  (forall c, (1 <= c <= popcount)%Z ->
     exists p, pick_scan 11 c 4 0 0 = Ok p /\
               (p < 4)%nat /\ bitset_test 11 p = true) /\
  (forall c1 c2 p, (1 <= c1 <= popcount)%Z -> (1 <= c2 <= popcount)%Z ->
     pick_scan 11 c1 4 0 0 = Ok p -> pick_scan 11 c2 4 0 0 = Ok p ->
     c1 = c2) /\
  (forall p, (p < 4)%nat -> bitset_test 11 p = true ->
     exists c, (1 <= c <= popcount)%Z /\ pick_scan 11 c 4 0 0 = Ok p).
Proof.
  apply (pick_nth_set_bit_selects Tape_contract 4 11 [1%Z]).
  reflexivity.
Defined.

(** On the mask [0b1011] the three draws give the positions 0, 1 and 3;
    position 2, whose bit is clear, is given by none. *)
Lemma pick_scan_1011 :
  pick_scan 11 1 4 0 0 = Ok 0%nat /\
  pick_scan 11 2 4 0 0 = Ok 1%nat /\
  pick_scan 11 3 4 0 0 = Ok 3%nat /\
  forall c, (1 <= c <= 3)%Z -> pick_scan 11 c 4 0 0 <> Ok 2%nat.
Proof.
  repeat split; try reflexivity.
  intros c Hc.
  assert (c = 1 \/ c = 2 \/ c = 3)%Z as [-> | [-> | ->]] by lia; discriminate.
Qed.

(** ** Weighted choice *)

Lemma fold_left_Qplus_ge (ws : list Q) :
  (forall w, In w ws -> (0 <= w)%Q) ->
  forall r, (r <= fold_left Qplus ws r)%Q.
Proof.
  induction ws as [|a ws IH]; intros Hnn r; cbn [fold_left].
  - apply Qle_refl.
  - assert (0 <= a)%Q by (apply Hnn; left; reflexivity).
    apply Qle_trans with (r + a)%Q; [lra|].
    apply IH. intros w Hw. apply Hnn. right. exact Hw.
Qed.

(** When no running sum exceeds the drawn value the loop ends without a
    [break]. *)
Lemma weighted_scan_none (val : Q) (ws : list Q) :
  (forall w, In w ws -> (0 <= w)%Q) ->
  forall i running_sum,
    (fold_left Qplus ws running_sum <= val)%Q ->
    weighted_scan val ws i running_sum = None.
Proof.
  induction ws as [|a ws IH]; intros Hnn i r Hle; cbn [weighted_scan].
  - reflexivity.
  - cbn [fold_left] in Hle.
    assert (Hrest : forall w, In w ws -> (0 <= w)%Q).
    { intros w Hw. apply Hnn. right. exact Hw. }
    pose proof (fold_left_Qplus_ge ws Hrest (r + a)%Q) as Hge.
    assert (F : Qlt_bool val (r + a) = false).
    { apply Qlt_bool_false_iff. lra. }
    rewrite F. apply IH; assumption.
Qed.

Lemma KindArray_to_list_In {A : Type} (a : KindArray A) (x : A) :
  In x (KindArray.to_list a) -> exists k, x = KindArray.get a k.
Proof.
  unfold KindArray.to_list. intros H. apply in_map_iff in H.
  destruct H as (k & Hk & _). exists k. symmetry. exact Hk.
Qed.

Section DegenerateDomains.
Context {hdr : AstHeader} {E : Type} {eng : RandomEngine E}.
Hypothesis contract : EngineContract E.

(** C3 (behaviour of the code). [pick_nth_set_bit] on the all-zero mask,
    and on any mask with no set bit, fails its assertion. [gen_expr_kind] on
    non-negative weights whose sum is zero does not fail: the loop ends
    without setting [kind] and the call returns the initial value
    [ExprKind::IntegerConstant]. *)
Theorem degenerate_selection_domains :
  (forall N (rng : E),
     pick_nth_set_bit N 0 rng
       = Abort (AssertionFailed "Mask must not be empty")) /\
  (forall N mask (rng : E),
     bitset_any N mask = false ->
     pick_nth_set_bit N mask rng
       = Abort (AssertionFailed "Mask must not be empty")) /\
  (forall weights (g : DefaultGeneratorRng (E := E)),
     (forall k, (0 <= KindArray.get (expr_weights weights) k)%Q) ->
     (accumulate (KindArray.to_list (expr_weights weights)) == 0)%Q ->
     exists g', gen_expr_kind weights g = Ok (ExprKind.IntegerConstant, g')).
Proof.
  split; [|split].
  - intros N rng. unfold pick_nth_set_bit. rewrite bitset_any_zero. reflexivity.
  - intros N mask rng Hany. unfold pick_nth_set_bit. rewrite Hany. reflexivity.
  - intros weights g Hnn Hsum.
    cbn [gen_expr_kind DefaultGeneratorRng_GeneratorRng].
    unfold Default_gen_expr_kind, on_engine, bind, draw, ret.
    set (ws := KindArray.to_list (expr_weights weights)) in *.
    destruct (uniform_real_distribution 0 (accumulate ws) (rng_ g))
      as [val e] eqn:D.
    assert (Hval : (0 <= val)%Q).
    { pose proof (uniform_real_lower contract 0 (accumulate ws) (rng_ g)) as L.
      rewrite D in L. cbn [fst] in L. apply L. rewrite Hsum. apply Qle_refl. }
    rewrite weighted_scan_none.
    + eexists. reflexivity.
    + intros w Hw. apply KindArray_to_list_In in Hw. destruct Hw as [k ->].
      apply Hnn.
    + fold (accumulate ws). rewrite Hsum. exact Hval.
Qed.

End DegenerateDomains.

Section DegenerateRuns.
#[local] Existing Instance sample_header.

(** The empty operator mask fails the assertion; the all-zero weights of
    [uniform_weights 0 1] yield [IntegerConstant]. *)
Lemma degenerate_selection_domains_witness :
  pick_nth_set_bit 18 0 [5%Z] = Abort (AssertionFailed "Mask must not be empty") /\
  exists g',
    gen_expr_kind
      {| expr_weights := KindArray.map initial_weight (uniform_weights 0 1);
         type_weights := [] |}
      (default_rng [5%Z])
    = Ok (ExprKind.IntegerConstant, g').
Proof.
  destruct (degenerate_selection_domains (hdr := sample_header) Tape_contract)
    as (Hzero & _ & Hweights).
  split.
  - apply Hzero.
  - apply Hweights.
    + intros k. destruct k; cbn; apply Qle_refl.
    + reflexivity.
Defined.

End DegenerateRuns.

(** ** The recursion budget *)

Section Budget.
Context {hdr : AstHeader} {R : Type} {rng : GeneratorRng R}.
Variable cfg_ : GenConfig.

(** One level of [gen_with_weights], read off a run that returns. *)
Lemma gen_with_weights_Ok (fuel : nat) weights r e r' :
  gen_with_weights cfg_ (S fuel) weights r = Ok (e, r') ->
  exists kind r1 e0 r2,
    gen_expr_kind weights r = Ok (kind, r1) /\
    match kind with
    | ExprKind.IntegerConstant =>
        gen_integer_constant cfg_ (dampened cfg_ weights kind)
    | ExprKind.DoubleConstant =>
        gen_double_constant cfg_ (dampened cfg_ weights kind)
    | ExprKind.VariableExpr =>
        gen_variable_expr (dampened cfg_ weights kind)
    | ExprKind.BinaryExpr =>
        gen_binary_expr cfg_ (gen_with_weights cfg_ fuel)
          (dampened cfg_ weights kind)
    | ExprKind.UnaryExpr =>
        gen_unary_expr cfg_ (gen_with_weights cfg_ fuel)
          (dampened cfg_ weights kind)
    end r1 = Ok (e0, r2) /\
    maybe_parenthesized cfg_ e0 r2 = Ok (e, r').
Proof.
  cbn [gen_with_weights]. intros H.
  apply bind_Ok in H. destruct H as (kind & r1 & Hk & H).
  apply bind_Ok in H. destruct H as (e0 & r2 & He & Hp).
  exists kind, r1, e0, r2. repeat split; assumption.
Qed.

Lemma bind_Ok_intro {A B : Type} (m : M R A) (k : A -> M R B) r a r1 x :
  m r = Ok (a, r1) -> k a r1 = Ok x -> bind m k r = Ok x.
Proof. unfold bind. intros -> H. exact H. Qed.

Lemma gen_binary_expr_callee (rec1 rec2 : Weights -> M R Expr) :
  (forall w r x, rec1 w r = Ok x -> rec2 w r = Ok x) ->
  forall w r x,
    gen_binary_expr cfg_ rec1 w r = Ok x -> gen_binary_expr cfg_ rec2 w r = Ok x.
Proof.
  intros Hrec w r [e r'] H. unfold gen_binary_expr in *.
  apply bind_Ok in H. destruct H as (op & r1 & Hop & H).
  apply bind_Ok in H. destruct H as (l0 & r2 & Hl & H).
  apply bind_Ok in H. destruct H as (r0 & r3 & Hr & H).
  eapply bind_Ok_intro; [exact Hop|].
  eapply bind_Ok_intro; [apply Hrec; exact Hl|].
  eapply bind_Ok_intro; [apply Hrec; exact Hr|].
  exact H.
Qed.

Lemma gen_unary_expr_callee (rec1 rec2 : Weights -> M R Expr) :
  (forall w r x, rec1 w r = Ok x -> rec2 w r = Ok x) ->
  forall w r x,
    gen_unary_expr cfg_ rec1 w r = Ok x -> gen_unary_expr cfg_ rec2 w r = Ok x.
Proof.
  intros Hrec w r [e r'] H. unfold gen_unary_expr in *.
  apply bind_Ok in H. destruct H as (e0 & r1 & He & H).
  eapply bind_Ok_intro; [apply Hrec; exact He|].
  exact H.
Qed.

(** A run that returns within a budget returns the same with any larger
    budget. *)
Lemma gen_with_weights_budget_mono :
  forall fuel fuel' weights r x,
    (fuel <= fuel')%nat ->
    gen_with_weights cfg_ fuel weights r = Ok x ->
    gen_with_weights cfg_ fuel' weights r = Ok x.
Proof.
  induction fuel as [|fuel IH]; intros fuel' weights r [e r'] Hle H.
  - discriminate.
  - destruct fuel' as [|fuel']; [lia|].
    apply gen_with_weights_Ok in H.
    destruct H as (kind & r1 & e0 & r2 & Hk & He & Hp).
    cbn [gen_with_weights].
    eapply bind_Ok_intro; [exact Hk|].
    eapply bind_Ok_intro; [|exact Hp].
    destruct kind; try exact He.
    + eapply gen_binary_expr_callee; [|exact He].
      intros w s x. apply IH. lia.
    + eapply gen_unary_expr_callee; [|exact He].
      intros w s x. apply IH. lia.
Qed.

Lemma gen_with_weights_budget_agree :
  forall fuel1 fuel2 weights r x1 x2,
    gen_with_weights cfg_ fuel1 weights r = Ok x1 ->
    gen_with_weights cfg_ fuel2 weights r = Ok x2 ->
    x1 = x2.
Proof.
  intros fuel1 fuel2 weights r x1 x2 H1 H2.
  apply gen_with_weights_budget_mono with (fuel' := Nat.max fuel1 fuel2) in H1;
    [|lia].
  apply gen_with_weights_budget_mono with (fuel' := Nat.max fuel1 fuel2) in H2;
    [|lia].
  congruence.
Qed.

End Budget.

(** ** The sequence of draws of a run *)

Lemma recorded_Ok {R A : Type} (ev : Draw) (m : M R A) r a r' :
  recorded ev m r = Ok (a, r') ->
  exists s, m (source r) = Ok (a, s) /\
            r' = {| source := s; draws := draws r ++ [ev] |}.
Proof.
  unfold recorded. destruct (m (source r)) as [[a' s]| |]; try discriminate.
  intros H. inversion H. subst. exists s. split; reflexivity.
Qed.

Lemma no_type_side_draws_app (l1 l2 : list Draw) :
  no_type_side_draws (l1 ++ l2)
  = no_type_side_draws l1 && no_type_side_draws l2.
Proof. unfold no_type_side_draws. apply forallb_app. Qed.

Lemma no_type_side_draws_cons (d : Draw) (l : list Draw) :
  no_type_side_draws (d :: l)
  = negb (is_type_side_draw d) && no_type_side_draws l.
Proof. reflexivity. Qed.

Lemma no_type_side_draws_nil : no_type_side_draws [] = true.
Proof. reflexivity. Qed.

Create Rewrite HintDb draws.
#[local] Hint Rewrite no_type_side_draws_app no_type_side_draws_cons
  no_type_side_draws_nil : draws.

Ltac no_type_side :=
  autorewrite with draws; cbn [is_type_side_draw negb andb];
  repeat match goal with
    | H : no_type_side_draws _ = true |- _ => rewrite H
    end;
  reflexivity.

Section DrawSequence.
Context {hdr : AstHeader} {R : Type} {rng : GeneratorRng R}.
Variable cfg_ : GenConfig.

Lemma maybe_parenthesized_draws (e0 : Expr) (r : Recording R) e r' :
  maybe_parenthesized cfg_ e0 r = Ok (e, r') ->
  draws r' = draws r ++ [DrawParenthesize (parenthesize_prob cfg_)].
Proof.
  unfold maybe_parenthesized. intros H.
  apply bind_Ok in H. destruct H as (b & r1 & Hb & H).
  cbn [gen_parenthesize Recording_GeneratorRng] in Hb.
  apply recorded_Ok in Hb. destruct Hb as (s & _ & ->).
  destruct b; apply ret_Ok in H; destruct H as [_ <-]; reflexivity.
Qed.

(** The draws a run of [gen_with_weights] adds to the record: first the draw
    of the kind on the weights passed in, last the parenthesization draw,
    and no type-kind or cv-qualifier draw anywhere. *)
Lemma gen_with_weights_draws :
  forall fuel weights (r : Recording R) e r',
    gen_with_weights cfg_ fuel weights r = Ok (e, r') ->
    exists middle,
      draws r' = draws r ++ DrawExprKind weights :: middle
                   ++ [DrawParenthesize (parenthesize_prob cfg_)] /\
      no_type_side_draws middle = true.
Proof.
  induction fuel as [|fuel IH]; intros weights r e r' H; [discriminate|].
  apply gen_with_weights_Ok in H.
  destruct H as (kind & r1 & e0 & r2 & Hk & He & Hp).
  apply maybe_parenthesized_draws in Hp.
  cbn [gen_expr_kind Recording_GeneratorRng] in Hk.
  apply recorded_Ok in Hk. destruct Hk as (s1 & _ & ->).
  cbn [draws] in *.
  set (nw := dampened cfg_ weights kind) in *. clearbody nw.
  assert (Hmid : exists middle,
             draws r2 = (draws r ++ [DrawExprKind weights]) ++ middle /\
             no_type_side_draws middle = true).
  { destruct kind.
    - unfold gen_integer_constant in He.
      apply bind_Ok in He. destruct He as (v & r3 & Hv & He).
      cbn [gen_u64 Recording_GeneratorRng] in Hv.
      apply recorded_Ok in Hv. destruct Hv as (s & _ & ->).
      apply ret_Ok in He. destruct He as [_ <-].
      eexists. split; reflexivity.
    - unfold gen_double_constant in He.
      apply bind_Ok in He. destruct He as (v & r3 & Hv & He).
      cbn [gen_double Recording_GeneratorRng] in Hv.
      apply recorded_Ok in Hv. destruct Hv as (s & _ & ->).
      apply ret_Ok in He. destruct He as [_ <-].
      eexists. split; reflexivity.
    - unfold gen_variable_expr in He.
      apply ret_Ok in He. destruct He as [_ <-].
      exists []. split; [cbn [draws]; rewrite app_nil_r|]; reflexivity.
    - apply gen_binary_expr_Ok in He.
      destruct He as (op & l0 & r0 & ra & rb & Hop & Hl & Hr & _).
      cbn [gen_bin_op Recording_GeneratorRng] in Hop.
      apply recorded_Ok in Hop. destruct Hop as (s & _ & ->).
      apply IH in Hl. destruct Hl as (ml & Hl & Nl).
      apply IH in Hr. destruct Hr as (mr & Hr & Nr).
      cbn [draws] in Hl. rewrite Hl in Hr.
      eexists. split.
      + rewrite Hr. rewrite <- !app_assoc. reflexivity.
      + no_type_side.
    - apply gen_unary_expr_Ok in He.
      destruct He as (e1 & op & ra & Hx & Hop & _).
      apply IH in Hx. destruct Hx as (mx & Hx & Nx).
      cbn [gen_un_op Recording_GeneratorRng] in Hop.
      apply recorded_Ok in Hop. destruct Hop as (s & _ & ->).
      cbn [draws] in *. rewrite Hx.
      eexists. split.
      + rewrite <- !app_assoc. reflexivity.
      + no_type_side. }
  destruct Hmid as (middle & Hm & Nm).
  exists middle. split; [|exact Nm].
  rewrite Hp, Hm. rewrite <- !app_assoc. reflexivity.
Qed.

End DrawSequence.

(** ** Determinism of a run on the default source *)

Lemma bind_alike {R1 R2 A B : Type} (rel : R1 -> R2 -> Prop)
    (m1 : M R1 A) (m2 : M R2 A) (k1 : A -> M R1 B) (k2 : A -> M R2 B) r1 r2 :
  alike_outcomes rel (m1 r1) (m2 r2) ->
  (forall a s1 s2, rel s1 s2 -> alike_outcomes rel (k1 a s1) (k2 a s2)) ->
  alike_outcomes rel (bind m1 k1 r1) (bind m2 k2 r2).
Proof.
  unfold bind, alike_outcomes. intros Hm Hk.
  destruct (m1 r1) as [[a1 s1]|f1|], (m2 r2) as [[a2 s2]|f2|];
    try contradiction; try exact Hm.
  destruct Hm as [<- Hs]. exact (Hk a1 s1 s2 Hs).
Qed.

Lemma ret_alike {R1 R2 A : Type} (rel : R1 -> R2 -> Prop) (a : A) r1 r2 :
  rel r1 r2 -> alike_outcomes rel (ret a r1) (ret a r2).
Proof. intros H. split; [reflexivity | exact H]. Qed.

(** The generator reads its source through the interface only: on two
    sources, of any two kinds, whose methods answer alike on related
    states, [gen_with_weights] ends alike. *)
Section SourcesAlike.
Context {hdr : AstHeader}.
Context {R1 R2 : Type} {rng1 : GeneratorRng R1} {rng2 : GeneratorRng R2}.
Variable rel : R1 -> R2 -> Prop.
Variable cfg : GenConfig.

Hypothesis expr_kind_alike : forall w r1 r2, rel r1 r2 ->
  alike_outcomes rel (gen_expr_kind w r1) (gen_expr_kind w r2).
Hypothesis bin_op_alike : forall mask r1 r2, rel r1 r2 ->
  alike_outcomes rel (gen_bin_op mask r1) (gen_bin_op mask r2).
Hypothesis un_op_alike : forall mask r1 r2, rel r1 r2 ->
  alike_outcomes rel (gen_un_op mask r1) (gen_un_op mask r2).
Hypothesis u64_alike : forall a b r1 r2, rel r1 r2 ->
  alike_outcomes rel (gen_u64 a b r1) (gen_u64 a b r2).
Hypothesis double_alike : forall a b r1 r2, rel r1 r2 ->
  alike_outcomes rel (gen_double a b r1) (gen_double a b r2).
Hypothesis parenthesize_alike : forall p r1 r2, rel r1 r2 ->
  alike_outcomes rel (gen_parenthesize p r1) (gen_parenthesize p r2).

Lemma gen_with_weights_alike :
  forall fuel w r1 r2, rel r1 r2 ->
    alike_outcomes rel (gen_with_weights cfg fuel w r1)
                       (gen_with_weights cfg fuel w r2).
Proof.
  induction fuel as [|fuel IH]; intros w r1 r2 Hr; [exact I|].
  cbn [gen_with_weights].
  apply bind_alike; [apply expr_kind_alike; exact Hr|].
  intros kind s1 s2 Hs.
  apply bind_alike.
  - destruct kind.
    + unfold gen_integer_constant.
      apply bind_alike; [apply u64_alike; exact Hs|].
      intros v t1 t2 Ht. apply ret_alike. exact Ht.
    + unfold gen_double_constant.
      apply bind_alike; [apply double_alike; exact Hs|].
      intros v t1 t2 Ht. apply ret_alike. exact Ht.
    + unfold gen_variable_expr. apply ret_alike. exact Hs.
    + unfold gen_binary_expr.
      apply bind_alike; [apply bin_op_alike; exact Hs|].
      intros op t1 t2 Ht.
      apply bind_alike; [apply IH; exact Ht|].
      intros lhs u1 u2 Hu.
      apply bind_alike; [apply IH; exact Hu|].
      intros rhs v1 v2 Hv. apply ret_alike. exact Hv.
    + unfold gen_unary_expr.
      apply bind_alike; [apply IH; exact Hs|].
      intros e0 t1 t2 Ht.
      apply bind_alike; [apply un_op_alike; exact Ht|].
      intros op u1 u2 Hu. apply ret_alike. exact Hu.
  - intros e0 t1 t2 Ht. unfold maybe_parenthesized.
    apply bind_alike; [apply parenthesize_alike; exact Ht|].
    intros b u1 u2 Hu. destruct b; apply ret_alike; exact Hu.
Qed.

End SourcesAlike.

(** A property of the source that every method keeps is kept by a run. *)
Section SourceInvariant.
Context {hdr : AstHeader} {R : Type} {rng : GeneratorRng R}.
Variable cfg : GenConfig.
Variable P : R -> Prop.

Hypothesis expr_kind_keeps : forall w r a r',
  P r -> gen_expr_kind w r = Ok (a, r') -> P r'.
Hypothesis bin_op_keeps : forall mask r a r',
  P r -> gen_bin_op mask r = Ok (a, r') -> P r'.
Hypothesis un_op_keeps : forall mask r a r',
  P r -> gen_un_op mask r = Ok (a, r') -> P r'.
Hypothesis u64_keeps : forall min max r a r',
  P r -> gen_u64 min max r = Ok (a, r') -> P r'.
Hypothesis double_keeps : forall min max r a r',
  P r -> gen_double min max r = Ok (a, r') -> P r'.
Hypothesis parenthesize_keeps : forall p r a r',
  P r -> gen_parenthesize p r = Ok (a, r') -> P r'.

Lemma gen_with_weights_keeps :
  forall fuel w r e r',
    P r -> gen_with_weights cfg fuel w r = Ok (e, r') -> P r'.
Proof.
  induction fuel as [|fuel IH]; intros w r e r' HP H; [discriminate|].
  apply gen_with_weights_Ok in H.
  destruct H as (kind & r1 & e0 & r2 & Hk & He & Hp).
  apply (expr_kind_keeps _ HP) in Hk.
  assert (HP2 : P r2).
  { destruct kind.
    - unfold gen_integer_constant in He.
      apply bind_Ok in He. destruct He as (v & r3 & Hv & He).
      apply ret_Ok in He. destruct He as [_ <-].
      exact (u64_keeps _ _ Hk Hv).
    - unfold gen_double_constant in He.
      apply bind_Ok in He. destruct He as (v & r3 & Hv & He).
      apply ret_Ok in He. destruct He as [_ <-].
      exact (double_keeps _ _ Hk Hv).
    - unfold gen_variable_expr in He.
      apply ret_Ok in He. destruct He as [_ <-]. exact Hk.
    - apply gen_binary_expr_Ok in He.
      destruct He as (op & l0 & r0 & ra & rb & Hop & Hl & Hr & _).
      apply (bin_op_keeps _ Hk) in Hop.
      apply (IH _ _ _ _ Hop) in Hl.
      exact (IH _ _ _ _ Hl Hr).
    - apply gen_unary_expr_Ok in He.
      destruct He as (e1 & op & ra & Hx & Hop & _).
      apply (IH _ _ _ _ Hk) in Hx.
      exact (un_op_keeps _ Hx Hop). }
  unfold maybe_parenthesized in Hp.
  apply bind_Ok in Hp. destruct Hp as (b & r3 & Hb & Hp).
  apply (parenthesize_keeps _ HP2) in Hb.
  destruct b; apply ret_Ok in Hp; destruct Hp as [_ <-]; exact Hb.
Qed.

End SourceInvariant.

(** Every method of [DefaultGeneratorRng] that the generator calls leaves
    the engine that [advance] names for its record. *)
Section EngineAdvances.
Context {hdr : AstHeader} {E : Type} {eng : RandomEngine E}.

Lemma on_engine_Ok {A : Type} (m : M E A) (g g' : DefaultGeneratorRng (E := E)) a :
  on_engine m g = Ok (a, g') -> m (rng_ g) = Ok (a, rng_ g').
Proof.
  unfold on_engine. destruct (m (rng_ g)) as [[a0 e0]|f|]; try discriminate.
  intros H. inversion H. reflexivity.
Qed.

Lemma pick_nth_set_bit_engine (N : nat) (mask : Z) (e e' : E) p :
  pick_nth_set_bit N mask e = Ok (p, e') ->
  e' = snd (uniform_int_distribution 1 (Z.of_nat (bitset_count N mask)) e).
Proof.
  unfold pick_nth_set_bit.
  destruct (negb (bitset_any N mask)); [discriminate|].
  destruct (uniform_int_distribution 1 _ e) as [c e1].
  destruct (pick_scan mask c N 0 0); try discriminate.
  intros H. inversion H. reflexivity.
Qed.

Lemma default_method_advances (g g' : DefaultGeneratorRng (E := E)) :
  (forall w a, gen_expr_kind w g = Ok (a, g') ->
               rng_ g' = advance (rng_ g) (DrawExprKind w)) /\
  (forall mask a, gen_bin_op mask g = Ok (a, g') ->
                  rng_ g' = advance (rng_ g) (DrawBinOp mask)) /\
  (forall mask a, gen_un_op mask g = Ok (a, g') ->
                  rng_ g' = advance (rng_ g) (DrawUnOp mask)) /\
  (forall min max a, gen_u64 min max g = Ok (a, g') ->
                     rng_ g' = advance (rng_ g) (DrawU64 min max)) /\
  (forall min max a, gen_double min max g = Ok (a, g') ->
                     rng_ g' = advance (rng_ g) (DrawDouble min max)) /\
  (forall p a, gen_parenthesize p g = Ok (a, g') ->
               rng_ g' = advance (rng_ g) (DrawParenthesize p)).
Proof.
  repeat split; intros;
    match goal with H : _ = Ok _ |- _ =>
      cbn [gen_expr_kind gen_bin_op gen_un_op gen_u64 gen_double
           gen_parenthesize DefaultGeneratorRng_GeneratorRng] in H;
      apply on_engine_Ok in H; cbn [advance]
    end.
  - unfold bind, draw, ret in H.
    destruct (uniform_real_distribution _ _ (rng_ g)) as [v e1].
    inversion H. reflexivity.
  - apply bind_Ok in H. destruct H as (i & e1 & Hp & Hr).
    apply ret_Ok in Hr. destruct Hr as [_ <-].
    exact (pick_nth_set_bit_engine _ _ _ Hp).
  - apply bind_Ok in H. destruct H as (i & e1 & Hp & Hr).
    apply ret_Ok in Hr. destruct Hr as [_ <-].
    exact (pick_nth_set_bit_engine _ _ _ Hp).
  - unfold draw in H.
    destruct (uniform_int_distribution _ _ (rng_ g)) as [v e1].
    inversion H. reflexivity.
  - unfold draw in H.
    destruct (uniform_real_distribution _ _ (rng_ g)) as [v e1].
    inversion H. reflexivity.
  - unfold draw in H.
    destruct (bernoulli_distribution _ (rng_ g)) as [v e1].
    inversion H. reflexivity.
Qed.

Lemma recorded_replays {A : Type} (seed : E) (ev : Draw)
    (m : M (DefaultGeneratorRng (E := E)) A) r a r' :
  (forall g a g', m g = Ok (a, g') -> rng_ g' = advance (rng_ g) ev) ->
  rng_ (source r) = replay seed (draws r) ->
  recorded ev m r = Ok (a, r') ->
  rng_ (source r') = replay seed (draws r').
Proof.
  intros Hm HP H. apply recorded_Ok in H. destruct H as (g' & Hg & ->).
  cbn [source draws]. unfold replay. rewrite fold_left_app. cbn [fold_left].
  fold (replay seed (draws r)). rewrite <- HP. exact (Hm _ _ _ Hg).
Qed.

(** The engine a recorded run leaves is the seed advanced by the recorded
    draws, in order. *)
Lemma gen_with_weights_replays (cfg : GenConfig) (seed : E) :
  forall fuel w (r : Recording (DefaultGeneratorRng (E := E))) e r',
    rng_ (source r) = replay seed (draws r) ->
    gen_with_weights cfg fuel w r = Ok (e, r') ->
    rng_ (source r') = replay seed (draws r').
Proof.
  apply (@gen_with_weights_keeps _ _ _ cfg
           (fun r => rng_ (source r) = replay seed (draws r)));
    intros until 1;
    cbn [gen_expr_kind gen_bin_op gen_un_op gen_u64 gen_double gen_parenthesize
         Recording_GeneratorRng];
    apply recorded_replays; try assumption;
    intros g0 a0 g0' H0;
    destruct (default_method_advances g0 g0') as (K & B & U & I & D & Pz).
  - exact (K _ _ H0).
  - exact (B _ _ H0).
  - exact (U _ _ H0).
  - exact (I _ _ _ H0).
  - exact (D _ _ _ H0).
  - exact (Pz _ _ H0).
Qed.

End EngineAdvances.

Section Determinism.
Context {hdr : AstHeader} {E : Type} {eng : RandomEngine E}.
Variable alike : E -> E -> Prop.
Hypothesis bisimulation : EngineBisimulation alike.

Let alike_sources (g1 g2 : DefaultGeneratorRng (E := E)) : Prop :=
  alike (rng_ g1) (rng_ g2).

Lemma on_engine_alike {A : Type} (m : M E A) g1 g2 :
  alike_outcomes alike (m (rng_ g1)) (m (rng_ g2)) ->
  alike_outcomes alike_sources (on_engine m g1) (on_engine m g2).
Proof.
  unfold on_engine, alike_outcomes.
  destruct (m (rng_ g1)) as [[a1 e1]|f1|], (m (rng_ g2)) as [[a2 e2]|f2|];
    intros H; exact H.
Qed.

Lemma draw_alike {A : Type} (d : E -> A * E) e1 e2 :
  fst (d e1) = fst (d e2) /\ alike (snd (d e1)) (snd (d e2)) ->
  alike_outcomes alike (draw d e1) (draw d e2).
Proof.
  unfold draw, alike_outcomes.
  destruct (d e1) as [a1 s1], (d e2) as [a2 s2]. intros H. exact H.
Qed.

Lemma pick_nth_set_bit_alike (N : nat) (mask : Z) e1 e2 :
  alike e1 e2 ->
  alike_outcomes alike (pick_nth_set_bit N mask e1) (pick_nth_set_bit N mask e2).
Proof.
  intros He. unfold pick_nth_set_bit.
  destruct (negb (bitset_any N mask)); [reflexivity|].
  pose proof (alike_uniform_int bisimulation 1
                (Z.of_nat (bitset_count N mask)) He) as [Hv Hs].
  destruct (uniform_int_distribution 1 _ e1) as [c1 s1].
  destruct (uniform_int_distribution 1 _ e2) as [c2 s2].
  cbn [fst snd] in Hv, Hs. subst c2.
  destruct (pick_scan mask c1 N 0 0) as [i|f|]; cbn;
    [split; [reflexivity | exact Hs] | reflexivity | exact I].
Qed.

Lemma recorded_alike {A : Type} (ev : Draw)
    (m : M (DefaultGeneratorRng (E := E)) A) r1 r2 :
  (forall g1 g2, alike_sources g1 g2 ->
                 alike_outcomes alike_sources (m g1) (m g2)) ->
  alike_recordings alike r1 r2 ->
  alike_outcomes (alike_recordings alike) (recorded ev m r1) (recorded ev m r2).
Proof.
  intros Hm [Hd Hs]. specialize (Hm (source r1) (source r2) Hs).
  unfold recorded, alike_outcomes in *.
  destruct (m (source r1)) as [[a1 s1]|f1|], (m (source r2)) as [[a2 s2]|f2|];
    try contradiction; try exact Hm.
  destruct Hm as [<- Hs']. split; [reflexivity|].
  split; cbn [draws source]; [rewrite Hd; reflexivity | exact Hs'].
Qed.

(** Recorded runs of [gen_with_weights] on engines that answer alike. *)
Lemma gen_with_weights_recorded_alike (cfg : GenConfig) :
  forall fuel w r1 r2, alike_recordings alike r1 r2 ->
    alike_outcomes (alike_recordings alike)
      (gen_with_weights cfg fuel w r1) (gen_with_weights cfg fuel w r2).
Proof.
  apply gen_with_weights_alike; intros;
    cbn [gen_expr_kind gen_bin_op gen_un_op gen_u64 gen_double gen_parenthesize
         Recording_GeneratorRng];
    (apply recorded_alike; [|assumption]);
    intros g1 g2 Hg;
    cbn [gen_expr_kind gen_bin_op gen_un_op gen_u64 gen_double gen_parenthesize
         DefaultGeneratorRng_GeneratorRng];
    apply on_engine_alike.
  - apply bind_alike.
    + apply draw_alike. apply (alike_uniform_real bisimulation _ _ Hg).
    + intros v s1 s2 Hs. apply ret_alike. exact Hs.
  - apply bind_alike; [apply pick_nth_set_bit_alike; exact Hg|].
    intros i s1 s2 Hs. apply ret_alike. exact Hs.
  - apply bind_alike; [apply pick_nth_set_bit_alike; exact Hg|].
    intros i s1 s2 Hs. apply ret_alike. exact Hs.
  - apply draw_alike. apply (alike_uniform_int bisimulation _ _ Hg).
  - apply draw_alike. apply (alike_uniform_real bisimulation _ _ Hg).
  - apply draw_alike. apply (alike_bernoulli bisimulation _ Hg).
Qed.


End Determinism.

(** The same engine state twice is the first case: equality is a
    bisimulation for every engine. *)
Lemma same_state_alike {E : Type} {eng : RandomEngine E} :
  EngineBisimulation (@eq E).
Proof. constructor; intros; subst; split; reflexivity. Qed.

(** The scripted engine on two tapes of the same stream. *)
Lemma tape_next_same_stream (t1 t2 : Tape) :
  same_stream t1 t2 ->
  fst (tape_next t1) = fst (tape_next t2) /\
  same_stream (snd (tape_next t1)) (snd (tape_next t2)).
Proof.
  intros H. split.
  - specialize (H 0%nat). destruct t1, t2; exact H.
  - intros n. pose proof (H (S n)) as Hn.
    destruct t1 as [|x1 t1], t2 as [|x2 t2]; cbn [tape_next snd nth] in *.
    + reflexivity.
    + rewrite <- Hn. destruct n; reflexivity.
    + rewrite Hn. destruct n; reflexivity.
    + exact Hn.
Qed.

Lemma Tape_same_stream : EngineBisimulation same_stream.
Proof.
  constructor; intros; cbn;
    match goal with
    | H : same_stream ?t1 ?t2 |- _ =>
        destruct (tape_next_same_stream H) as [Hx Hs];
        destruct (tape_next t1) as [x1 s1], (tape_next t2) as [x2 s2];
        cbn [fst snd] in *; subst x2; split; [reflexivity | exact Hs]
    end.
Qed.

Section DeterminismRuns.
#[local] Existing Instance sample_header.


(** The tree does depend on the answers: a tape that differs in one raw
    number gives another constant. *)
Lemma generate_depends_on_stream :
  generate sample_config 1 [] (default_rng [0; 5; 999]%Z)
  = Ok (IntegerConstant 5, default_rng []) /\
  generate sample_config 1 [] (default_rng [0; 6; 999]%Z)
  = Ok (IntegerConstant 6, default_rng []).
Proof. split; vm_compute; reflexivity. Qed.

End DeterminismRuns.

(** ** Order of the draws of a unary expression *)

Section UnaryOrder.
Context {hdr : AstHeader} {R : Type} {rng : GeneratorRng R}.
Variable cfg_ : GenConfig.

(** C4 (amended). When the drawn kind is [UnaryExpr], the generator first
    generates the operand from the dampened weight copy and only then draws
    the unary operator on [cfg.un_op_mask]: in the sequence of draws, every
    draw made while generating the operand precedes the operator draw, which
    is followed only by the parenthesization draw of the node. *)
Theorem unary_operand_generated_before_operator (fuel : nat) weights
    (r r1 : Recording R) e r' :
  gen_with_weights cfg_ (S fuel) weights r = Ok (e, r') ->
  gen_expr_kind weights r = Ok (ExprKind.UnaryExpr, r1) ->
  let new_weights := dampened cfg_ weights ExprKind.UnaryExpr in
  exists e0 r2 operand_draws,
    gen_with_weights cfg_ fuel new_weights r1 = Ok (e0, r2) /\
    draws r2 = draws r1 ++ DrawExprKind new_weights :: operand_draws /\
    draws r' = draws r1 ++ (DrawExprKind new_weights :: operand_draws)
                 ++ [DrawUnOp (un_op_mask cfg_);
                     DrawParenthesize (parenthesize_prob cfg_)].
Proof.
  intros H Hkind new_weights.
  apply gen_with_weights_Ok in H.
  destruct H as (kind & r1' & e1 & r3 & Hk & He & Hp).
  rewrite Hkind in Hk. inversion Hk. subst kind r1'. clear Hk.
  apply maybe_parenthesized_draws in Hp.
  apply gen_unary_expr_Ok in He.
  destruct He as (e0 & op & r2 & Hx & Hop & _).
  cbn [gen_un_op Recording_GeneratorRng] in Hop.
  apply recorded_Ok in Hop. destruct Hop as (s & _ & ->).
  pose proof (gen_with_weights_draws _ _ _ _ Hx) as (middle & Hd & _).
  exists e0, r2. eexists. split; [exact Hx|]. split; [exact Hd|].
  rewrite Hp. cbn [draws]. rewrite Hd.
  rewrite <- !app_assoc. cbn [app]. rewrite <- !app_assoc. reflexivity.
Qed.

End UnaryOrder.

Section UnaryOrderRuns.
#[local] Existing Instance sample_header.

(** A recorded run that draws [UnaryExpr] (raw number 999) and then an
    integer operand. *)
Lemma unary_operand_generated_before_operator_witness :
  let new_weights := dampened sample_config sample_weights ExprKind.UnaryExpr in
  let r1 := {| source := default_rng [0; 5; 999; 1; 999]%Z;
               draws := [DrawExprKind sample_weights] |} in
  exists e0 r2 operand_draws,
    gen_with_weights sample_config 1 new_weights r1 = Ok (e0, r2) /\
    draws r2 = draws r1 ++ DrawExprKind new_weights :: operand_draws /\
    draws
      {| source := default_rng [];
         draws := [DrawExprKind sample_weights; DrawExprKind new_weights;
                   DrawU64 0 1000; DrawParenthesize (1 # 4); DrawUnOp 3;
                   DrawParenthesize (1 # 4)] |}
    = draws r1 ++ (DrawExprKind new_weights :: operand_draws)
        ++ [DrawUnOp (un_op_mask sample_config);
            DrawParenthesize (parenthesize_prob sample_config)].
Proof.
  intros new_weights r1.
  apply (unary_operand_generated_before_operator sample_config 1 sample_weights
           (record_from (default_rng [999; 0; 5; 999; 1; 999]%Z))
           (e := UnaryExpr (UnOp_of_index 1) (IntegerConstant 5))).
  - vm_compute. reflexivity.
  - vm_compute. reflexivity.
Defined.

(** C4 as stated fails: in this run of [gen_unary_expr] the operator draw
    [DrawUnOp] is the last of the four draws, after the three draws of the
    operand, and not the first. *)
Lemma unary_operator_drawn_first_counterexample :
  exists e r',
    gen_unary_expr sample_config (gen_with_weights sample_config 1)
      sample_weights (record_from (default_rng [0; 5; 999; 1]%Z))
    = Ok (e, r') /\
    draws r' = [DrawExprKind sample_weights; DrawU64 0 1000;
                DrawParenthesize (1 # 4); DrawUnOp 3] /\
    ~ (exists rest, draws r' = DrawUnOp (un_op_mask sample_config) :: rest).
Proof.
  eexists. eexists. split; [vm_compute; reflexivity|].
  split; [reflexivity|].
  intros [rest H]. discriminate H.
Qed.

End UnaryOrderRuns.

(** ** Weights are copied and dampened per step *)

Lemma KindArray_get_set_same {A : Type} (a : KindArray A) k v :
  KindArray.get (KindArray.set a k v) k = v.
Proof. destruct k; reflexivity. Qed.

Lemma KindArray_get_set_other {A : Type} (a : KindArray A) k k' v :
  k' <> k -> KindArray.get (KindArray.set a k v) k' = KindArray.get a k'.
Proof. destruct k, k'; intros H; try reflexivity; congruence. Qed.

Section WeightCopies.
Context {hdr : AstHeader} {R : Type} {rng : GeneratorRng R}.
Variable cfg_ : GenConfig.

(** C5. A step of [gen_with_weights] draws the kind on the weights it was
    passed and works on a copy [new_weights] of them in which the slot of
    the drawn kind is multiplied by that kind's dampening factor; every
    other expression slot and the type slots are those of the weights
    passed in. For [BinaryExpr] the left and the right child are both
    generated from [new_weights]: the first draw of each child is the draw
    of a kind on [new_weights], whatever the left subtree did to its own
    copies. For [UnaryExpr] the operand is generated from [new_weights]. *)
Theorem gen_with_weights_dampens_own_copy (fuel : nat) weights
    (r : Recording R) e r' :
  gen_with_weights cfg_ (S fuel) weights r = Ok (e, r') ->
  exists kind r1 new_weights,
    gen_expr_kind weights r = Ok (kind, r1) /\
    draws r1 = draws r ++ [DrawExprKind weights] /\
    new_weights = dampened cfg_ weights kind /\
    KindArray.get (expr_weights new_weights) kind
    = (KindArray.get (expr_weights weights) kind
       * dampening_factor (KindArray.get (expr_kind_weights cfg_) kind))%Q /\
    (forall k, k <> kind ->
       KindArray.get (expr_weights new_weights) k
       = KindArray.get (expr_weights weights) k) /\
    type_weights new_weights = type_weights weights /\
    (kind = ExprKind.BinaryExpr ->
     exists op ra l0 rb r0 rc left_draws right_draws,
       gen_bin_op (bin_op_mask cfg_) r1 = Ok (op, ra) /\
       gen_with_weights cfg_ fuel new_weights ra = Ok (l0, rb) /\
       gen_with_weights cfg_ fuel new_weights rb = Ok (r0, rc) /\
       draws rb = draws ra ++ DrawExprKind new_weights :: left_draws /\
       draws rc = draws rb ++ DrawExprKind new_weights :: right_draws) /\
    (kind = ExprKind.UnaryExpr ->
     exists e0 rb operand_draws,
       gen_with_weights cfg_ fuel new_weights r1 = Ok (e0, rb) /\
       draws rb = draws r1 ++ DrawExprKind new_weights :: operand_draws).
Proof.
  intros H.
  apply gen_with_weights_Ok in H.
  destruct H as (kind & r1 & e1 & r3 & Hk & He & Hp).
  exists kind, r1, (dampened cfg_ weights kind).
  split; [exact Hk|].
  split.
  { cbn [gen_expr_kind Recording_GeneratorRng] in Hk.
    apply recorded_Ok in Hk. destruct Hk as (s & _ & ->). reflexivity. }
  split; [reflexivity|].
  split; [apply KindArray_get_set_same|].
  split; [intros k Hne; apply KindArray_get_set_other; exact Hne|].
  split; [reflexivity|].
  split.
  - intros ->.
    apply gen_binary_expr_Ok in He.
    destruct He as (op & l0 & r0 & ra & rb & Hop & Hl & Hr & _).
    pose proof (gen_with_weights_draws _ _ _ _ Hl) as (ml & Hdl & _).
    pose proof (gen_with_weights_draws _ _ _ _ Hr) as (mr & Hdr & _).
    exists op, ra, l0, rb, r0, r3. eexists. eexists.
    repeat split; eassumption.
  - intros ->.
    apply gen_unary_expr_Ok in He.
    destruct He as (e0 & op & rb & Hx & _ & _).
    pose proof (gen_with_weights_draws _ _ _ _ Hx) as (mx & Hdx & _).
    exists e0, rb. eexists. split; eassumption.
Qed.

End WeightCopies.

(** ** Type-side settings play no part *)

Lemma bind_congr {R A B : Type} (m1 m2 : M R A) (k1 k2 : A -> M R B) (r : R) :
  m1 r = m2 r -> (forall a r1, k1 a r1 = k2 a r1) ->
  bind m1 k1 r = bind m2 k2 r.
Proof.
  intros Hm Hk. unfold bind. rewrite Hm.
  destruct (m2 r) as [[a r1]| |]; [apply Hk | reflexivity | reflexivity].
Qed.

Section TypeSettings.
Context {hdr : AstHeader}.

Lemma gen_with_weights_same_settings {R : Type} {rng : GeneratorRng R}
    (cfg1 cfg2 : GenConfig) :
  same_expression_settings cfg1 cfg2 ->
  forall fuel weights r,
    gen_with_weights cfg1 fuel weights r = gen_with_weights cfg2 fuel weights r.
Proof.
  intros (Himin & Himax & Hdmin & Hdmax & Hbin & Hun & Hpar & Hw).
  induction fuel as [|fuel IH]; intros weights r; [reflexivity|].
  cbn [gen_with_weights].
  apply bind_congr; [reflexivity|]. intros kind r1.
  assert (Hd : dampened cfg1 weights kind = dampened cfg2 weights kind).
  { unfold dampened. rewrite Hw. reflexivity. }
  rewrite Hd.
  apply bind_congr.
  - destruct kind.
    + unfold gen_integer_constant. rewrite Himin, Himax. reflexivity.
    + unfold gen_double_constant. rewrite Hdmin, Hdmax. reflexivity.
    + reflexivity.
    + unfold gen_binary_expr. rewrite Hbin.
      apply bind_congr; [reflexivity|]. intros op r2.
      apply bind_congr; [apply IH|]. intros l0 r3.
      apply bind_congr; [apply IH|]. intros r0 r4. reflexivity.
    + unfold gen_unary_expr. rewrite Hun.
      apply bind_congr; [apply IH|]. intros e0 r2. reflexivity.
  - intros e0 r2. unfold maybe_parenthesized. rewrite Hpar. reflexivity.
Qed.

(** C10. [generate] fills the expression-kind slots of the initial weights
    from the configuration and leaves the type-kind slots as constructed; a
    run issues no type-kind and no cv-qualifier draw; and two runs from the
    same source state under configurations that differ only in the type-kind
    weight table, [const_prob] or [volatile_prob] have the same outcome, in
    particular the same tree. *)
Theorem generate_ignores_type_settings {R : Type} {rng : GeneratorRng R}
    (cfg1 cfg2 : GenConfig) (fuel : nat) (tw : list Q) (r : R) :
  same_expression_settings cfg1 cfg2 ->
  expr_weights (initial_weights cfg1 tw)
  = KindArray.map initial_weight (expr_kind_weights cfg1) /\
  type_weights (initial_weights cfg1 tw) = tw /\
  generate cfg1 fuel tw r = generate cfg2 fuel tw r /\
  generate cfg1 fuel tw (record_from r) = generate cfg2 fuel tw (record_from r) /\
  (forall e r', generate cfg1 fuel tw (record_from r) = Ok (e, r') ->
     no_type_side_draws (draws r') = true).
Proof.
  intros Hsame.
  split; [reflexivity|]. split; [reflexivity|].
  assert (Hw : initial_weights cfg1 tw = initial_weights cfg2 tw).
  { unfold initial_weights.
    destruct Hsame as (_ & _ & _ & _ & _ & _ & _ & ->). reflexivity. }
  unfold generate. rewrite Hw.
  split; [apply gen_with_weights_same_settings; exact Hsame|].
  split; [apply gen_with_weights_same_settings; exact Hsame|].
  intros e r' H.
  apply gen_with_weights_draws in H. destruct H as (middle & Hd & Hn).
  rewrite Hd. cbn [record_from draws app]. no_type_side.
Qed.

End TypeSettings.

Section WeightRuns.
#[local] Existing Instance sample_header.

(** A recorded run that builds [7 * 9]: both children draw their kind on the
    weights in which only the [BinaryExpr] slot was halved. *)
Lemma gen_with_weights_dampens_own_copy_witness :
  let weights := sample_weights in
  let r := record_from (default_rng [700; 2; 0; 7; 999; 0; 9; 999; 999]%Z) in
  let halved := dampened sample_config sample_weights ExprKind.BinaryExpr in
  let r' := {| source := default_rng [];
               draws := [DrawExprKind weights; DrawBinOp 15;
                         DrawExprKind halved; DrawU64 0 1000;
                         DrawParenthesize (1 # 4);
                         DrawExprKind halved; DrawU64 0 1000;
                         DrawParenthesize (1 # 4);
                         DrawParenthesize (1 # 4)] |} in
  exists kind r1 new_weights,
    gen_expr_kind weights r = Ok (kind, r1) /\
    draws r1 = draws r ++ [DrawExprKind weights] /\
    new_weights = dampened sample_config weights kind /\
    KindArray.get (expr_weights new_weights) kind
    = (KindArray.get (expr_weights weights) kind
       * dampening_factor
           (KindArray.get (expr_kind_weights sample_config) kind))%Q /\
    (forall k, k <> kind ->
       KindArray.get (expr_weights new_weights) k
       = KindArray.get (expr_weights weights) k) /\
    type_weights new_weights = type_weights weights /\
    (kind = ExprKind.BinaryExpr ->
     exists op ra l0 rb r0 rc left_draws right_draws,
       gen_bin_op (bin_op_mask sample_config) r1 = Ok (op, ra) /\
       gen_with_weights sample_config 1 new_weights ra = Ok (l0, rb) /\
       gen_with_weights sample_config 1 new_weights rb = Ok (r0, rc) /\
       draws rb = draws ra ++ DrawExprKind new_weights :: left_draws /\
       draws rc = draws rb ++ DrawExprKind new_weights :: right_draws) /\
    (kind = ExprKind.UnaryExpr ->
     exists e0 rb operand_draws,
       gen_with_weights sample_config 1 new_weights r1 = Ok (e0, rb) /\
       draws rb = draws r1 ++ DrawExprKind new_weights :: operand_draws).
Proof.
  intros weights r halved r'.
  apply (gen_with_weights_dampens_own_copy sample_config 1 weights r
           (e := BinaryExpr (IntegerConstant 7) (BinOp_of_index 2)
                   (IntegerConstant 9))
           (r' := r')).
  vm_compute. reflexivity.
Defined.

(** The same seed under [sample_config] and [sample_config_retyped]. *)
Lemma generate_ignores_type_settings_witness :
  let r := default_rng [700; 2; 0; 7; 999; 0; 9; 999; 999]%Z in
  expr_weights (initial_weights sample_config [])
  = KindArray.map initial_weight (expr_kind_weights sample_config) /\
  type_weights (initial_weights sample_config []) = [] /\
  generate sample_config 2 [] r = generate sample_config_retyped 2 [] r /\
  generate sample_config 2 [] (record_from r)
  = generate sample_config_retyped 2 [] (record_from r) /\
  (forall e r', generate sample_config 2 [] (record_from r) = Ok (e, r') ->
     no_type_side_draws (draws r') = true).
Proof.
  intros r.
  apply (@generate_ignores_type_settings _ _ _ sample_config
           sample_config_retyped 2 [] r).
  repeat split; reflexivity.
Defined.

End WeightRuns.

(** ** The integer-only scenario *)

Section IntegerOnly.
Context {hdr : AstHeader} {E : Type} {eng : RandomEngine E}.
Hypothesis contract : EngineContract E.

(** With weight 1 on [IntegerConstant] and 0 elsewhere, the weighted choice
    returns [IntegerConstant] whatever value is drawn. *)
Lemma gen_expr_kind_integer_only (weights : Weights)
    (g : DefaultGeneratorRng (E := E)) :
  (forall k, KindArray.get (expr_weights weights) k
             = if ExprKind.eqb k ExprKind.IntegerConstant then 1%Q else 0%Q) ->
  exists e1, gen_expr_kind weights g = Ok (ExprKind.IntegerConstant, {| rng_ := e1 |}).
Proof.
  intros Hw.
  cbn [gen_expr_kind DefaultGeneratorRng_GeneratorRng].
  unfold Default_gen_expr_kind, on_engine, bind, draw, ret.
  unfold KindArray.to_list. cbn [map ExprKind.all].
  rewrite !Hw. cbn [ExprKind.eqb].
  destruct (uniform_real_distribution 0 (accumulate [1; 0; 0; 0; 0]%Q) (rng_ g))
    as [val e1].
  exists e1.
  change (weighted_scan val [1; 0; 0; 0; 0]%Q 0 0)
    with (if Qlt_bool val 1 then Some 0%nat
          else if Qlt_bool val 1 then Some 1%nat
          else if Qlt_bool val 1 then Some 2%nat
          else if Qlt_bool val 1 then Some 3%nat
          else if Qlt_bool val 1 then Some 4%nat
          else None).
  destruct (Qlt_bool val 1); reflexivity.
Qed.

(** C6 (amended). Under a configuration with [int_const_min = 0],
    [int_const_max = 0] and every initial weight zero except
    [IntegerConstant = 1], a run of [generate] from any engine state returns
    [IntegerConstant 0], wrapped in [ParenthesizedExpr] exactly when the
    Bernoulli draw of [maybe_parenthesized] on [parenthesize_prob] is true;
    when [parenthesize_prob] is zero the run returns exactly
    [IntegerConstant 0]. *)
Theorem generate_integer_only (cfg : GenConfig) (tw : list Q) (fuel : nat)
    (g : DefaultGeneratorRng (E := E)) :
  int_const_min cfg = 0%Z ->
  int_const_max cfg = 0%Z ->
  (forall k, initial_weight (KindArray.get (expr_kind_weights cfg) k)
             = if ExprKind.eqb k ExprKind.IntegerConstant then 1%Q else 0%Q) ->
  exists e2 : E,
    let d := bernoulli_distribution (parenthesize_prob cfg) e2 in
    generate cfg (S fuel) tw g
    = Ok (if fst d then ParenthesizedExpr (IntegerConstant 0)
          else IntegerConstant 0,
          {| rng_ := snd d |}) /\
    ((parenthesize_prob cfg == 0)%Q ->
     generate cfg (S fuel) tw g = Ok (IntegerConstant 0, {| rng_ := snd d |})).
Proof.
  intros Hmin Hmax Hw.
  assert (Hk : exists e1,
             gen_expr_kind (initial_weights cfg tw) g
             = Ok (ExprKind.IntegerConstant, {| rng_ := e1 |})).
  { apply gen_expr_kind_integer_only. intros k.
    unfold initial_weights. cbn [expr_weights].
    rewrite <- Hw. destruct k; reflexivity. }
  destruct Hk as (e1 & Hk).
  destruct (uniform_int_distribution 0 0 e1) as [v e2] eqn:Dv.
  assert (Hv : v = 0%Z).
  { pose proof (uniform_int_range contract 0 0 e1 ltac:(lia)) as B.
    rewrite Dv in B. cbn [fst] in B. lia. }
  subst v.
  exists e2. cbn zeta.
  assert (Hrun : generate cfg (S fuel) tw g
                 = Ok (if fst (bernoulli_distribution (parenthesize_prob cfg) e2)
                       then ParenthesizedExpr (IntegerConstant 0)
                       else IntegerConstant 0,
                       {| rng_ := snd (bernoulli_distribution
                                         (parenthesize_prob cfg) e2) |})).
  { unfold generate. cbn [gen_with_weights]. unfold bind at 1. rewrite Hk.
    unfold gen_integer_constant, maybe_parenthesized.
    cbn [gen_u64 gen_parenthesize DefaultGeneratorRng_GeneratorRng].
    unfold Default_gen_u64, Default_gen_parenthesize, on_engine, draw, bind, ret.
    cbn [rng_]. rewrite Hmin, Hmax, Dv. cbn [rng_].
    destruct (bernoulli_distribution (parenthesize_prob cfg) e2) as [b e3].
    cbn [fst snd]. destruct b; reflexivity. }
  split; [exact Hrun|].
  intros Hp. rewrite Hrun.
  rewrite (bernoulli_zero contract (parenthesize_prob cfg) e2 Hp). reflexivity.
Qed.

End IntegerOnly.

Section IntegerOnlyRuns.
#[local] Existing Instance sample_header.

Lemma generate_integer_only_witness :
  exists e2 : Tape,
    let d := bernoulli_distribution (parenthesize_prob (integer_only_config 0)) e2 in
    generate (integer_only_config 0) 1 [] (default_rng [3; 4; 5; 6]%Z)
    = Ok (if fst d then ParenthesizedExpr (IntegerConstant 0)
          else IntegerConstant 0,
          {| rng_ := snd d |}) /\
    ((parenthesize_prob (integer_only_config 0) == 0)%Q ->
     generate (integer_only_config 0) 1 [] (default_rng [3; 4; 5; 6]%Z)
     = Ok (IntegerConstant 0, {| rng_ := snd d |})).
Proof.
  apply (generate_integer_only Tape_contract (integer_only_config 0) [] 0
           (default_rng [3; 4; 5; 6]%Z)).
  - reflexivity.
  - reflexivity.
  - intros k. destruct k; reflexivity.
Defined.

(** C6 as stated fails: with [parenthesize_prob = 1/2] and an engine whose
    Bernoulli draw succeeds, the run returns the constant in parentheses. *)
Lemma generate_integer_only_counterexample :
  int_const_min (integer_only_config (1 # 2)) = 0%Z /\
  int_const_max (integer_only_config (1 # 2)) = 0%Z /\
  KindArray.map initial_weight (expr_kind_weights (integer_only_config (1 # 2)))
  = {| at_IntegerConstant := 1; at_DoubleConstant := 0; at_VariableExpr := 0;
       at_BinaryExpr := 0; at_UnaryExpr := 0 |} /\
  generate (integer_only_config (1 # 2)) 1 [] (default_rng [3; 4; 5; 6]%Z)
  = Ok (ParenthesizedExpr (IntegerConstant 0), default_rng [6%Z]) /\
  ParenthesizedExpr (IntegerConstant 0) <> IntegerConstant 0.
Proof.
  repeat split; try reflexivity. discriminate.
Qed.

End IntegerOnlyRuns.

(** ** Operator draws on a non-empty mask return *)

Section OperatorDrawsReturn.
Context {hdr : AstHeader} {E : Type} {eng : RandomEngine E}.
Hypothesis contract : EngineContract E.

Lemma gen_bin_op_returns (mask : Z) (g : DefaultGeneratorRng (E := E)) :
  bitset_any NUM_BIN_OPS mask = true ->
  exists op g', gen_bin_op mask g = Ok (op, g').
Proof.
  intros Hany.
  cbn [gen_bin_op DefaultGeneratorRng_GeneratorRng].
  unfold Default_gen_bin_op, on_engine, bind, ret, pick_nth_set_bit.
  rewrite Hany. cbn [negb].
  set (popcount := Z.of_nat (bitset_count NUM_BIN_OPS mask)).
  assert (Hpc : (1 <= popcount)%Z).
  { apply bitset_any_count in Hany. unfold popcount. lia. }
  pose proof (uniform_int_range contract 1 popcount (rng_ g) Hpc) as Hch.
  destruct (uniform_int_distribution 1 popcount (rng_ g)) as [choice e1].
  cbn [fst] in Hch.
  destruct (@pick_scan_from_start NUM_BIN_OPS mask choice Hch) as (p & Hp & _).
  rewrite Hp. eexists. eexists. reflexivity.
Qed.

Lemma gen_un_op_returns (mask : Z) (g : DefaultGeneratorRng (E := E)) :
  bitset_any NUM_UN_OPS mask = true ->
  exists op g', gen_un_op mask g = Ok (op, g').
Proof.
  intros Hany.
  cbn [gen_un_op DefaultGeneratorRng_GeneratorRng].
  unfold Default_gen_un_op, on_engine, bind, ret, pick_nth_set_bit.
  rewrite Hany. cbn [negb].
  set (popcount := Z.of_nat (bitset_count NUM_UN_OPS mask)).
  assert (Hpc : (1 <= popcount)%Z).
  { apply bitset_any_count in Hany. unfold popcount. lia. }
  pose proof (uniform_int_range contract 1 popcount (rng_ g) Hpc) as Hch.
  destruct (uniform_int_distribution 1 popcount (rng_ g)) as [choice e1].
  cbn [fst] in Hch.
  destruct (@pick_scan_from_start NUM_UN_OPS mask choice Hch) as (p & Hp & _).
  rewrite Hp. eexists. eexists. reflexivity.
Qed.

End OperatorDrawsReturn.

(** ** The selection loop *)

(** For a drawn value between the running sum and the total, the loop stops
    at the index whose interval of running sums holds the value. *)
Lemma weighted_scan_interval (val : Q) (ws : list Q) :
  forall i r,
    (r <= val)%Q -> (val < fold_left Qplus ws r)%Q ->
    exists k,
      weighted_scan val ws i r = Some (i + k)%nat /\
      (k < List.length ws)%nat /\
      (fold_left Qplus (firstn k ws) r <= val)%Q /\
      (val < fold_left Qplus (firstn (S k) ws) r)%Q.
Proof.
  induction ws as [|a ws IH]; intros i r Hlo Hhi.
  - cbn [fold_left] in Hhi. lra.
  - cbn [weighted_scan]. cbn [fold_left] in Hhi.
    destruct (Qlt_bool val (r + a)) eqn:C.
    + exists 0%nat. rewrite Nat.add_0_r. split; [reflexivity|].
      split; [cbn [List.length]; lia|].
      cbn [firstn fold_left]. apply Qlt_bool_iff in C. split; assumption.
    + apply Qlt_bool_false_iff in C.
      destruct (IH (S i) (r + a)%Q C Hhi) as (k & Hk & Hlen & Hl & Hu).
      exists (S k). rewrite Nat.add_succ_r. split; [exact Hk|].
      split; [cbn [List.length]; lia|].
      cbn [firstn fold_left] in *. split; assumption.
Qed.

Section EmptyMaskRun.
#[local] Existing Instance sample_header.

(** With an empty operator mask a run that draws [BinaryExpr] stops at the
    assertion of [pick_nth_set_bit] and returns no tree. *)
Lemma generate_fails_on_empty_mask :
  generate no_bin_op_config 3 [] (default_rng [700; 2; 0; 7]%Z)
  = Abort (AssertionFailed "Mask must not be empty").
Proof. vm_compute. reflexivity. Qed.

End EmptyMaskRun.

(** * Further properties of the randomness source *)

(** ** The scan of [pick_nth_set_bit] *)

(** The scan ends at the unreachable marker when the running count never
    equals the draw. *)
Lemma pick_scan_misses (mask : Z) (choice : Z) :
  forall steps i running_ones,
    running_ones = Z.of_nat (bitset_count i mask) ->
    (forall j, (i <= j < i + steps)%nat ->
       Z.of_nat (bitset_count (S j) mask) <> choice) ->
    pick_scan mask choice steps i running_ones
    = Abort (Unreachable "Mask has no bits set").
Proof.
  induction steps as [|steps IH]; intros i running_ones Hr Hne; [reflexivity|].
  cbn [pick_scan].
  pose proof (bitset_count_S mask i) as HS.
  pose proof (Hne i ltac:(lia)) as Hi.
  set (running' := if bitset_test mask i then (running_ones + 1)%Z
                   else running_ones).
  assert (Hr' : running' = Z.of_nat (bitset_count (S i) mask)).
  { unfold running'. rewrite HS. destruct (bitset_test mask i); lia. }
  destruct (Z.eqb_spec running' choice) as [Heq|_]; [congruence|].
  apply IH; [exact Hr'|]. intros j Hj. apply Hne. lia.
Qed.

(** What a returning call of [pick_nth_set_bit] tells. *)
Lemma pick_nth_set_bit_Ok {E : Type} {eng : RandomEngine E}
    (contract : EngineContract E) (N : nat) (mask : Z) (rng : E) p rng' :
  pick_nth_set_bit N mask rng = Ok (p, rng') ->
  bitset_any N mask = true /\ (p < N)%nat /\ bitset_test mask p = true /\
  rng' = snd (uniform_int_distribution 1 (Z.of_nat (bitset_count N mask)) rng).
Proof.
  unfold pick_nth_set_bit.
  destruct (bitset_any N mask) eqn:Hany; cbn [negb]; [|discriminate].
  set (popcount := Z.of_nat (bitset_count N mask)).
  assert (Hpc : (1 <= popcount)%Z).
  { apply bitset_any_count in Hany. unfold popcount. lia. }
  pose proof (uniform_int_range contract 1 popcount rng Hpc) as Hch.
  destruct (uniform_int_distribution 1 popcount rng) as [choice e1].
  cbn [fst snd] in *.
  destruct (@pick_scan_from_start N mask choice Hch) as (q & Hq & Hlt & [T _] & _).
  rewrite Hq. intros H. inversion H. subst. repeat split; assumption.
Qed.

Section ScanEdges.
Context {E : Type} {eng : RandomEngine E}.
Hypothesis contract : EngineContract E.

(** X1. With a distribution that keeps its range, [pick_nth_set_bit] never
    reaches [lldb_eval_unreachable]: on every mask and engine state it fails
    the assertion (the mask has no set bit) or returns a position. *)
Theorem pick_nth_set_bit_never_unreachable (N : nat) (mask : Z) (rng : E) :
  (forall msg, pick_nth_set_bit N mask rng <> Abort (Unreachable msg)) /\
  (pick_nth_set_bit N mask rng
   = Abort (AssertionFailed "Mask must not be empty")
   \/ exists p rng', pick_nth_set_bit N mask rng = Ok (p, rng')).
Proof.
  destruct (bitset_any N mask) eqn:Hany.
  - assert (Hret : exists p rng', pick_nth_set_bit N mask rng = Ok (p, rng')).
    { unfold pick_nth_set_bit. rewrite Hany. cbn [negb].
      set (popcount := Z.of_nat (bitset_count N mask)).
      assert (Hpc : (1 <= popcount)%Z).
      { apply bitset_any_count in Hany. unfold popcount. lia. }
      pose proof (uniform_int_range contract 1 popcount rng Hpc) as Hch.
      destruct (uniform_int_distribution 1 popcount rng) as [choice e1].
      cbn [fst] in Hch.
      destruct (@pick_scan_from_start N mask choice Hch) as (p & Hp & _).
      rewrite Hp. eexists. eexists. reflexivity. }
    split; [|right; exact Hret].
    destruct Hret as (p & rng' & ->). intros msg. discriminate.
  - assert (Hfail : pick_nth_set_bit N mask rng
                    = Abort (AssertionFailed "Mask must not be empty")).
    { unfold pick_nth_set_bit. rewrite Hany. reflexivity. }
    split; [|left; exact Hfail].
    rewrite Hfail. intros msg. discriminate.
Qed.

End ScanEdges.

(** X2. The scan preserves order: of two draws in range the larger one
    selects the higher position. *)
Theorem pick_scan_increasing (N : nat) (mask : Z) (c1 c2 : Z) (p1 p2 : nat) :
  (1 <= c1)%Z -> (c1 < c2)%Z -> (c2 <= Z.of_nat (bitset_count N mask))%Z ->
  pick_scan mask c1 N 0 0 = Ok p1 ->
  pick_scan mask c2 N 0 0 = Ok p2 ->
  (p1 < p2)%nat.
Proof.
  intros H1 H12 H2 S1 S2.
  destruct (@pick_scan_from_start N mask c1 ltac:(lia)) as (q1 & Hq1 & _ & [_ C1] & _).
  destruct (@pick_scan_from_start N mask c2 ltac:(lia)) as (q2 & Hq2 & _ & [_ C2] & _).
  assert (q1 = p1) by congruence. assert (q2 = p2) by congruence. subst q1 q2.
  destruct (Nat.lt_ge_cases p1 p2) as [Hlt|Hge]; [exact Hlt|exfalso].
  pose proof (@bitset_count_mono mask (S p2) (S p1) ltac:(lia)). lia.
Qed.

Lemma pick_scan_increasing_witness : (0 < 3)%nat.
Proof.
  apply (@pick_scan_increasing 4 11 1 3 0 3); try reflexivity; cbn; lia.
Defined.

(** X3. A draw outside [[1, popcount]] other than zero never meets the
    running count: the scan runs off the mask and reaches
    [lldb_eval_unreachable]. *)
Theorem pick_scan_out_of_range (N : nat) (mask : Z) (choice : Z) :
  (choice < 0 \/ Z.of_nat (bitset_count N mask) < choice)%Z ->
  pick_scan mask choice N 0 0 = Abort (Unreachable "Mask has no bits set").
Proof.
  intros Hout. apply pick_scan_misses; [reflexivity|].
  intros j Hj.
  pose proof (@bitset_count_mono mask (S j) N ltac:(lia)). lia.
Qed.

Lemma pick_scan_out_of_range_witness :
  pick_scan 11 4 4 0 0 = Abort (Unreachable "Mask has no bits set").
Proof.
  apply pick_scan_out_of_range. right. cbn. lia.
Defined.

Lemma pick_nth_set_bit_never_unreachable_witness :
  (forall msg, pick_nth_set_bit 4 11 [7%Z] <> Abort (Unreachable msg)) /\
  (pick_nth_set_bit 4 11 [7%Z]
   = Abort (AssertionFailed "Mask must not be empty")
   \/ exists p rng', pick_nth_set_bit 4 11 [7%Z] = Ok (p, rng')).
Proof.
  exact (pick_nth_set_bit_never_unreachable Tape_contract 4 11 [7%Z]).
Defined.

(** ** Operators, kinds and qualifiers drawn by [DefaultGeneratorRng] *)

Section DefaultDraws.
Context {hdr : AstHeader} {E : Type} {eng : RandomEngine E}.
Hypothesis contract : EngineContract E.

Lemma gen_bin_op_Ok (mask : Z) (g g' : DefaultGeneratorRng (E := E)) op :
  gen_bin_op mask g = Ok (op, g') ->
  exists i, op = BinOp_of_index i /\ (i < NUM_BIN_OPS)%nat /\
            bitset_test mask i = true.
Proof.
  cbn [gen_bin_op DefaultGeneratorRng_GeneratorRng].
  unfold Default_gen_bin_op, on_engine, bind, ret.
  destruct (pick_nth_set_bit NUM_BIN_OPS mask (rng_ g)) as [[p e]|f|] eqn:Hp;
    try discriminate.
  intros H. inversion H. subst.
  apply (pick_nth_set_bit_Ok contract) in Hp.
  exists p. split; [reflexivity|]. split; apply Hp.
Qed.

Lemma gen_un_op_Ok (mask : Z) (g g' : DefaultGeneratorRng (E := E)) op :
  gen_un_op mask g = Ok (op, g') ->
  exists i, op = UnOp_of_index i /\ (i < NUM_UN_OPS)%nat /\
            bitset_test mask i = true.
Proof.
  cbn [gen_un_op DefaultGeneratorRng_GeneratorRng].
  unfold Default_gen_un_op, on_engine, bind, ret.
  destruct (pick_nth_set_bit NUM_UN_OPS mask (rng_ g)) as [[p e]|f|] eqn:Hp;
    try discriminate.
  intros H. inversion H. subst.
  apply (pick_nth_set_bit_Ok contract) in Hp.
  exists p. split; [reflexivity|]. split; apply Hp.
Qed.

(** X4. [gen_bin_op] and [gen_un_op] return only operators whose bit is set
    in the mask they are given, with an index below the size of the mask,
    and they return one whenever the mask has a set bit; on a mask without
    set bit they fail the assertion. *)
Theorem default_operators_enabled (mask : Z) (g : DefaultGeneratorRng (E := E)) :
  (bitset_any NUM_BIN_OPS mask = true ->
   exists i g', gen_bin_op mask g = Ok (BinOp_of_index i, g') /\
                (i < NUM_BIN_OPS)%nat /\ bitset_test mask i = true) /\
  (bitset_any NUM_BIN_OPS mask = false ->
   gen_bin_op mask g = Abort (AssertionFailed "Mask must not be empty")) /\
  (bitset_any NUM_UN_OPS mask = true ->
   exists i g', gen_un_op mask g = Ok (UnOp_of_index i, g') /\
                (i < NUM_UN_OPS)%nat /\ bitset_test mask i = true) /\
  (bitset_any NUM_UN_OPS mask = false ->
   gen_un_op mask g = Abort (AssertionFailed "Mask must not be empty")).
Proof.
  split; [|split; [|split]].
  - intros Hany.
    destruct (gen_bin_op_returns contract mask g Hany) as (op & g' & Hop).
    destruct (gen_bin_op_Ok _ _ Hop) as (i & -> & Hi & Hb).
    exists i, g'. repeat split; assumption.
  - intros Hany. cbn [gen_bin_op DefaultGeneratorRng_GeneratorRng].
    unfold Default_gen_bin_op, on_engine, bind, pick_nth_set_bit.
    rewrite Hany. reflexivity.
  - intros Hany.
    destruct (gen_un_op_returns contract mask g Hany) as (op & g' & Hop).
    destruct (gen_un_op_Ok _ _ Hop) as (i & -> & Hi & Hb).
    exists i, g'. repeat split; assumption.
  - intros Hany. cbn [gen_un_op DefaultGeneratorRng_GeneratorRng].
    unfold Default_gen_un_op, on_engine, bind, pick_nth_set_bit.
    rewrite Hany. reflexivity.
Qed.

(** The kind returned by the selection loop has a positive weight, unless
    the loop ended without a [break] and the initial value
    [IntegerConstant] is returned. *)
Lemma weighted_scan_positive (val : Q) (ws : list Q) :
  forall i r k,
    (r <= val)%Q ->
    weighted_scan val ws i r = Some k ->
    (i <= k)%nat /\ (0 < nth (k - i) ws 0)%Q.
Proof.
  induction ws as [|a ws IH]; intros i r k Hlo H; [discriminate|].
  cbn [weighted_scan] in H.
  destruct (Qlt_bool val (r + a)) eqn:C.
  - inversion H. subst k. rewrite Nat.sub_diag. cbn [nth].
    apply Qlt_bool_iff in C. split; [lia | lra].
  - apply Qlt_bool_false_iff in C.
    destruct (IH (S i) (r + a)%Q k C H) as [Hik Hpos].
    split; [lia|].
    replace (k - i)%nat with (S (k - S i)) by lia. exact Hpos.
Qed.

Lemma gen_expr_kind_Ok (w : Weights) (g g' : DefaultGeneratorRng (E := E)) kind :
  (forall k, (0 <= KindArray.get (expr_weights w) k)%Q) ->
  gen_expr_kind w g = Ok (kind, g') ->
  (0 < KindArray.get (expr_weights w) kind)%Q
  \/ (kind = ExprKind.IntegerConstant /\
      (accumulate (KindArray.to_list (expr_weights w))
       <= fst (uniform_real_distribution 0
                 (accumulate (KindArray.to_list (expr_weights w))) (rng_ g)))%Q).
Proof.
  intros Hnn.
  cbn [gen_expr_kind DefaultGeneratorRng_GeneratorRng].
  unfold Default_gen_expr_kind, on_engine, bind, draw, ret.
  set (ws := KindArray.to_list (expr_weights w)).
  assert (Hws : forall x, In x ws -> (0 <= x)%Q).
  { intros x Hx. apply KindArray_to_list_In in Hx. destruct Hx as [k ->].
    apply Hnn. }
  assert (Hsum : (0 <= accumulate ws)%Q).
  { unfold accumulate. apply fold_left_Qplus_ge. exact Hws. }
  pose proof (uniform_real_lower contract 0 (accumulate ws) (rng_ g) Hsum) as Hlo.
  destruct (uniform_real_distribution 0 (accumulate ws) (rng_ g)) as [val e1].
  cbn [fst] in *.
  destruct (weighted_scan val ws 0 0) as [i|] eqn:Hscan.
  - intros H. inversion H. subst. left.
    destruct (weighted_scan_positive ws 0%nat Hlo Hscan) as [_ Hpos].
    rewrite Nat.sub_0_r in Hpos.
    unfold ws, KindArray.to_list in Hpos.
    destruct i as [|[|[|[|[|i]]]]]; cbn in Hpos |- *; try exact Hpos.
    destruct i; cbn in Hpos; lra.
  - intros H. inversion H. subst. right. split; [reflexivity|].
    destruct (Qlt_le_dec val (accumulate ws)) as [Hlt|Hge]; [|exact Hge].
    destruct (@weighted_scan_interval val ws 0%nat 0%Q Hlo Hlt) as (k & Hk & _).
    congruence.
Qed.

(** What [gen_expr_kind] returns, by the drawn value [val]: below the sum of
    the weights the loop breaks at a kind of positive weight; at the sum or
    above it the loop ends without a [break]. *)
Lemma gen_expr_kind_by_draw (w : Weights) (g : DefaultGeneratorRng (E := E)) :
  let sum := accumulate (KindArray.to_list (expr_weights w)) in
  let val := fst (uniform_real_distribution 0 sum (rng_ g)) in
  (forall k, (0 <= KindArray.get (expr_weights w) k)%Q) ->
  exists kind g',
    gen_expr_kind w g = Ok (kind, g') /\
    ((val < sum)%Q -> (0 < KindArray.get (expr_weights w) kind)%Q) /\
    ((sum <= val)%Q -> kind = ExprKind.IntegerConstant).
Proof.
  intros sum val Hnn.
  assert (Hret : exists kind g', gen_expr_kind w g = Ok (kind, g')).
  { cbn [gen_expr_kind DefaultGeneratorRng_GeneratorRng].
    unfold Default_gen_expr_kind, on_engine, bind, draw, ret.
    destruct (uniform_real_distribution _ _ (rng_ g)).
    eexists. eexists. reflexivity. }
  destruct Hret as (kind & g' & Hk). exists kind, g'.
  split; [exact Hk|].
  assert (Hws : forall x, In x (KindArray.to_list (expr_weights w)) -> (0 <= x)%Q).
  { intros x Hx. apply KindArray_to_list_In in Hx. destruct Hx as [k ->].
    apply Hnn. }
  split.
  - intros Hlt.
    destruct (gen_expr_kind_Ok w g Hnn Hk) as [Hpos|[_ Hge]]; [exact Hpos|].
    fold sum in Hge. fold val in Hge. lra.
  - intros Hge. revert Hk.
    cbn [gen_expr_kind DefaultGeneratorRng_GeneratorRng].
    unfold Default_gen_expr_kind, on_engine, bind, draw, ret.
    fold sum. unfold val in Hge.
    destruct (uniform_real_distribution 0 sum (rng_ g)) as [v e1].
    cbn [fst] in Hge.
    rewrite weighted_scan_none; [|exact Hws|exact Hge].
    intros H. inversion H. reflexivity.
Qed.

(** X5. On non-negative weights the kind that [gen_expr_kind] returns is
    decided by the drawn value [val]: when [val] is below the sum of the
    weights the kind has a positive weight, so a kind of weight zero is not
    drawn; when [val] reaches the sum, the upper end of the range it is
    drawn from, the loop ends without a [break] and the initial value
    [IntegerConstant] is returned, whatever its weight. *)
Theorem gen_expr_kind_positive_weight (w : Weights)
    (g : DefaultGeneratorRng (E := E)) :
  let sum := accumulate (KindArray.to_list (expr_weights w)) in
  let val := fst (uniform_real_distribution 0 sum (rng_ g)) in
  (forall k, (0 <= KindArray.get (expr_weights w) k)%Q) ->
  exists kind g',
    gen_expr_kind w g = Ok (kind, g') /\
    ((val < sum)%Q -> (0 < KindArray.get (expr_weights w) kind)%Q) /\
    ((sum <= val)%Q -> kind = ExprKind.IntegerConstant).
Proof. exact (gen_expr_kind_by_draw w g). Qed.

(** X6. When one kind [k] holds all the weight, [gen_expr_kind] returns [k]
    if the drawn value is below that weight, whichever of the five kinds
    [k] is; if the drawn value reaches the weight, it returns the initial
    value [IntegerConstant] instead. *)
Theorem gen_expr_kind_single_weight (w : Weights) (k : ExprKind.t)
    (g : DefaultGeneratorRng (E := E)) :
  let val :=
    fst (uniform_real_distribution 0
           (accumulate (KindArray.to_list (expr_weights w))) (rng_ g)) in
  (0 < KindArray.get (expr_weights w) k)%Q ->
  (forall k', k' <> k -> (KindArray.get (expr_weights w) k' == 0)%Q) ->
  exists kind g',
    gen_expr_kind w g = Ok (kind, g') /\
    ((val < KindArray.get (expr_weights w) k)%Q -> kind = k) /\
    ((KindArray.get (expr_weights w) k <= val)%Q ->
     kind = ExprKind.IntegerConstant).
Proof.
  intros val Hk Hothers.
  assert (Hnn : forall k', (0 <= KindArray.get (expr_weights w) k')%Q).
  { intros k'. destruct k, k'; try lra;
      match goal with
      | |- (0 <= KindArray.get _ ?a)%Q =>
          rewrite (Hothers a) by discriminate; lra
      end. }
  assert (Hsum : (accumulate (KindArray.to_list (expr_weights w))
                  == KindArray.get (expr_weights w) k)%Q).
  { unfold accumulate, KindArray.to_list. cbn [map ExprKind.all fold_left].
    destruct k;
      repeat match goal with
        | |- context [KindArray.get (expr_weights w) ?a] =>
            lazymatch goal with
            | H : (KindArray.get (expr_weights w) a == 0)%Q |- _ => fail
            | _ => pose proof (Hothers a ltac:(discriminate))
            end
        end; lra. }
  destruct (gen_expr_kind_by_draw w g Hnn) as (kind & g' & Hkind & Hlt & Hge).
  exists kind, g'. split; [exact Hkind|]. split.
  - intros Hval.
    assert (Hpos : (0 < KindArray.get (expr_weights w) kind)%Q).
    { apply Hlt. fold val. rewrite Hsum. exact Hval. }
    destruct (ExprKind.eqb kind k) eqn:Eq.
    + destruct kind, k; try discriminate; reflexivity.
    + assert (Hne : kind <> k) by (intros ->; destruct k; discriminate).
      rewrite (Hothers kind Hne) in Hpos. lra.
  - intros Hval. apply Hge. fold val. rewrite Hsum. exact Hval.
Qed.

End DefaultDraws.

(** The engine at the upper end meets the contract, and on it the second
    case of [gen_expr_kind] is the one that runs: [BinaryExpr] holds all the
    weight and [IntegerConstant], of weight zero, is returned. *)
Lemma UpperEnd_contract : EngineContract UpperEnd.
Proof.
  constructor.
  - intros a b e H. cbn. lia.
  - intros a b e H. cbn. exact H.
  - intros p e H. cbn. destruct (Qle_bool 1 p) eqn:C; [|reflexivity].
    apply Qle_bool_iff in C. lra.
  - intros p e H. cbn. apply Qle_bool_iff. rewrite H. apply Qle_refl.
Qed.

Section UpperEndRuns.
#[local] Existing Instance sample_header.

Lemma gen_expr_kind_at_upper_end :
  gen_expr_kind (weights_of 0 0 0 (1 # 1000) 0 []) {| rng_ := upper_end |}
  = Ok (ExprKind.IntegerConstant, {| rng_ := upper_end |}).
Proof. vm_compute. reflexivity. Qed.

End UpperEndRuns.

Section DefaultTypeDraws.
Context {hdr : AstHeader} {E : Type} {eng : RandomEngine E}.
Hypothesis contract : EngineContract E.

(** X7. [gen_type_kind] always returns, and on non-negative type weights
    the kind it returns is decided by the drawn value [val]: when the sum of
    the weights is zero (the empty vector among them), or [val] reaches the
    sum, the loop ends without a [break] and the initial value
    [TypeKind::ScalarType] is returned; when [val] is below the sum it
    returns the kind of an index inside the vector whose weight is
    positive. *)
Theorem gen_type_kind_selects (w : Weights) (g : DefaultGeneratorRng (E := E)) :
  let sum := accumulate (type_weights w) in
  let val := fst (uniform_real_distribution 0 sum (rng_ g)) in
  (forall x, In x (type_weights w) -> (0 <= x)%Q) ->
  exists kind g',
    gen_type_kind w g = Ok (kind, g') /\
    ((sum == 0)%Q -> kind = ScalarType) /\
    ((sum <= val)%Q -> kind = ScalarType) /\
    ((val < sum)%Q ->
     exists i, kind = TypeKind_of_index i /\
               (i < List.length (type_weights w))%nat /\
               (0 < nth i (type_weights w) 0)%Q).
Proof.
  intros sum val Hnn. unfold val, sum.
  cbn [gen_type_kind DefaultGeneratorRng_GeneratorRng].
  unfold Default_gen_type_kind, on_engine, bind, draw, ret.
  set (ws := type_weights w) in *.
  assert (Hsum : (0 <= accumulate ws)%Q).
  { unfold accumulate. apply fold_left_Qplus_ge. exact Hnn. }
  pose proof (uniform_real_lower contract 0 (accumulate ws) (rng_ g) Hsum) as Hlo.
  destruct (uniform_real_distribution 0 (accumulate ws) (rng_ g)) as [v e1].
  cbn [fst] in *.
  eexists. eexists. split; [reflexivity|]. split; [|split].
  - intros Hzero. rewrite weighted_scan_none; [reflexivity | exact Hnn |].
    fold (accumulate ws). lra.
  - intros Hge. rewrite weighted_scan_none; [reflexivity | exact Hnn |].
    exact Hge.
  - intros Hlt.
    destruct (@weighted_scan_interval v ws 0%nat 0%Q Hlo Hlt)
      as (k & Hk & Hlen & _).
    cbn [Nat.add] in Hk. rewrite Hk.
    destruct (weighted_scan_positive ws 0%nat Hlo Hk) as [_ Hw].
    rewrite Nat.sub_0_r in Hw.
    exists k. repeat split; assumption.
Qed.

(** X8. [gen_cv_qualifiers] always returns, after exactly two Bernoulli
    draws, the first on [const_prob] and the second on [volatile_prob]: the
    result has [Const] exactly when the first draw is true and [Volatile]
    exactly when the second is. With both probabilities at zero the result
    is [None], with both at one it is [Const | Volatile], and the two mixed
    settings give [Const] alone and [Volatile] alone. *)
Theorem gen_cv_qualifiers_flags (const_prob volatile_prob : Q)
    (g : DefaultGeneratorRng (E := E)) :
  let d1 := bernoulli_distribution const_prob (rng_ g) in
  let d2 := bernoulli_distribution volatile_prob (snd d1) in
  gen_cv_qualifiers const_prob volatile_prob g
  = Ok ({| cv_const := fst d1; cv_volatile := fst d2 |}, {| rng_ := snd d2 |}) /\
  ((const_prob == 0)%Q -> (volatile_prob == 0)%Q ->
   gen_cv_qualifiers const_prob volatile_prob g
   = Ok (CvQual.None, {| rng_ := snd d2 |})) /\
  ((const_prob == 1)%Q -> (volatile_prob == 1)%Q ->
   gen_cv_qualifiers const_prob volatile_prob g
   = Ok (CvQual.union CvQual.Const CvQual.Volatile, {| rng_ := snd d2 |})) /\
  ((const_prob == 1)%Q -> (volatile_prob == 0)%Q ->
   gen_cv_qualifiers const_prob volatile_prob g
   = Ok (CvQual.Const, {| rng_ := snd d2 |})) /\
  ((const_prob == 0)%Q -> (volatile_prob == 1)%Q ->
   gen_cv_qualifiers const_prob volatile_prob g
   = Ok (CvQual.Volatile, {| rng_ := snd d2 |})).
Proof.
  intros d1 d2.
  assert (Hrun : gen_cv_qualifiers const_prob volatile_prob g
                 = Ok ({| cv_const := fst d1; cv_volatile := fst d2 |},
                       {| rng_ := snd d2 |})).
  { cbn [gen_cv_qualifiers DefaultGeneratorRng_GeneratorRng].
    unfold Default_gen_cv_qualifiers, on_engine, bind, draw, ret.
    subst d2 d1.
    destruct (bernoulli_distribution const_prob (rng_ g)) as [c e1].
    cbn [fst snd].
    destruct (bernoulli_distribution volatile_prob e1) as [v e2].
    cbn [fst snd]. destruct c, v; reflexivity. }
  split; [exact Hrun|].
  pose proof (bernoulli_zero contract const_prob (rng_ g)) as C0.
  pose proof (bernoulli_one contract const_prob (rng_ g)) as C1.
  pose proof (bernoulli_zero contract volatile_prob (snd d1)) as V0.
  pose proof (bernoulli_one contract volatile_prob (snd d1)) as V1.
  fold d1 in C0, C1. fold d2 in V0, V1.
  repeat split; intros Hc Hv; rewrite Hrun;
    rewrite ?(C0 Hc), ?(C1 Hc), ?(V0 Hv), ?(V1 Hv); reflexivity.
Qed.

End DefaultTypeDraws.

Section DefaultDrawRuns.
#[local] Existing Instance sample_header.

Lemma default_operators_enabled_witness :
  (bitset_any NUM_BIN_OPS 15 = true ->
   exists i g', gen_bin_op 15 (default_rng [2%Z]) = Ok (BinOp_of_index i, g') /\
                (i < NUM_BIN_OPS)%nat /\ bitset_test 15 i = true) /\
  (bitset_any NUM_BIN_OPS 15 = false ->
   gen_bin_op 15 (default_rng [2%Z])
   = Abort (AssertionFailed "Mask must not be empty")) /\
  (bitset_any NUM_UN_OPS 15 = true ->
   exists i g', gen_un_op 15 (default_rng [2%Z]) = Ok (UnOp_of_index i, g') /\
                (i < NUM_UN_OPS)%nat /\ bitset_test 15 i = true) /\
  (bitset_any NUM_UN_OPS 15 = false ->
   gen_un_op 15 (default_rng [2%Z])
   = Abort (AssertionFailed "Mask must not be empty")).
Proof.
  exact (default_operators_enabled Tape_contract 15 (default_rng [2%Z])).
Defined.

Lemma gen_expr_kind_positive_weight_witness :
  let sum := accumulate (KindArray.to_list (expr_weights sample_weights)) in
  let val := fst (uniform_real_distribution 0 sum [700%Z]) in
  exists kind g',
    gen_expr_kind sample_weights (default_rng [700%Z]) = Ok (kind, g') /\
    ((val < sum)%Q -> (0 < KindArray.get (expr_weights sample_weights) kind)%Q) /\
    ((sum <= val)%Q -> kind = ExprKind.IntegerConstant).
Proof.
  apply (gen_expr_kind_positive_weight Tape_contract sample_weights
           (default_rng [700%Z])).
  intros k. destruct k; vm_compute; discriminate.
Defined.

Lemma gen_expr_kind_single_weight_witness :
  let w := weights_of 0 0 (2 # 3) 0 0 [] in
  let val :=
    fst (uniform_real_distribution 0
           (accumulate (KindArray.to_list (expr_weights w))) [700%Z]) in
  exists kind g',
    gen_expr_kind w (default_rng [700%Z]) = Ok (kind, g') /\
    ((val < 2 # 3)%Q -> kind = ExprKind.VariableExpr) /\
    ((2 # 3 <= val)%Q -> kind = ExprKind.IntegerConstant).
Proof.
  intros w.
  apply (gen_expr_kind_single_weight Tape_contract w
           (k := ExprKind.VariableExpr) (default_rng [700%Z])).
  - vm_compute. reflexivity.
  - intros k' Hk'. destruct k'; try reflexivity. congruence.
Defined.

Lemma gen_type_kind_selects_witness :
  let w := {| expr_weights := expr_weights sample_weights;
              type_weights := [0; 1 # 2; 0; 3]%Q |} in
  let sum := accumulate (type_weights w) in
  let val := fst (uniform_real_distribution 0 sum [100%Z]) in
  exists kind g',
    gen_type_kind w (default_rng [100%Z]) = Ok (kind, g') /\
    ((sum == 0)%Q -> kind = ScalarType) /\
    ((sum <= val)%Q -> kind = ScalarType) /\
    ((val < sum)%Q ->
     exists i, kind = TypeKind_of_index i /\
               (i < List.length (type_weights w))%nat /\
               (0 < nth i (type_weights w) 0)%Q).
Proof.
  intros w.
  apply (gen_type_kind_selects Tape_contract w (default_rng [100%Z])).
  intros x Hx. cbn in Hx.
  destruct Hx as [<-|[<-|[<-|[<-|[]]]]]; vm_compute; discriminate.
Defined.

Lemma gen_cv_qualifiers_flags_witness :
  gen_cv_qualifiers 1 0 (default_rng [5; 6; 7]%Z)
  = Ok (CvQual.Const, default_rng [7%Z]).
Proof.
  destruct (gen_cv_qualifiers_flags Tape_contract 1 0 (default_rng [5; 6; 7]%Z))
    as (_ & _ & _ & H & _).
  apply H; reflexivity.
Defined.

End DefaultDrawRuns.

(** * Invariants of the generated trees *)

(** ** An induction principle for the trees that [gen_with_weights] returns

    [Inv] is kept by the weights along the recursion, [Node] holds of a node
    before [maybe_parenthesized] and [Tree] of what a step returns. *)
Section TreeInduction.
Context {hdr : AstHeader} {R : Type} {rng : GeneratorRng R}.
Variable cfg_ : GenConfig.
Variable Inv : Weights -> Prop.
Variables Node Tree : Expr -> Prop.

Hypothesis Inv_binary : forall w r r1,
  Inv w -> gen_expr_kind w r = Ok (ExprKind.BinaryExpr, r1) ->
  Inv (dampened cfg_ w ExprKind.BinaryExpr).
Hypothesis Inv_unary : forall w r r1,
  Inv w -> gen_expr_kind w r = Ok (ExprKind.UnaryExpr, r1) ->
  Inv (dampened cfg_ w ExprKind.UnaryExpr).
Hypothesis Node_integer : forall w r0 r v r',
  Inv w -> gen_expr_kind w r0 = Ok (ExprKind.IntegerConstant, r) ->
  gen_u64 (int_const_min cfg_) (int_const_max cfg_) r = Ok (v, r') ->
  Node (IntegerConstant v).
Hypothesis Node_double : forall w r0 r v r',
  Inv w -> gen_expr_kind w r0 = Ok (ExprKind.DoubleConstant, r) ->
  gen_double (double_constant_min cfg_) (double_constant_max cfg_) r = Ok (v, r') ->
  Node (DoubleConstant v).
Hypothesis Node_variable : forall w r0 r,
  Inv w -> gen_expr_kind w r0 = Ok (ExprKind.VariableExpr, r) ->
  Node (VariableExpr VAR).
Hypothesis Node_binary : forall w r0 r op r' l0 r0',
  Inv w -> gen_expr_kind w r0 = Ok (ExprKind.BinaryExpr, r) ->
  gen_bin_op (bin_op_mask cfg_) r = Ok (op, r') ->
  Tree l0 -> Tree r0' ->
  Node (BinaryExpr
          (if (expr_precedence l0 >? bin_op_precedence op)%Z
           then ParenthesizedExpr l0 else l0)
          op
          (if (expr_precedence r0' >=? bin_op_precedence op)%Z
           then ParenthesizedExpr r0' else r0')).
Hypothesis Node_unary : forall w r0 r e0 r1 op r',
  Inv w -> gen_expr_kind w r0 = Ok (ExprKind.UnaryExpr, r) ->
  Tree e0 ->
  gen_un_op (un_op_mask cfg_) r1 = Ok (op, r') ->
  Node (UnaryExpr op
          (if (expr_precedence e0 >? UnaryExpr_PRECEDENCE)%Z
           then ParenthesizedExpr e0 else e0)).
Hypothesis Tree_parenthesized : forall e0 b r r',
  Node e0 ->
  gen_parenthesize (parenthesize_prob cfg_) r = Ok (b, r') ->
  Tree (if b then ParenthesizedExpr e0 else e0).

Lemma gen_with_weights_tree_ind :
  forall fuel w r e r',
    Inv w -> gen_with_weights cfg_ fuel w r = Ok (e, r') -> Tree e.
Proof.
  induction fuel as [|fuel IH]; intros w r e r' HInv H; [discriminate|].
  apply gen_with_weights_Ok in H.
  destruct H as (kind & r1 & e0 & r2 & Hk & He & Hp).
  assert (HN : Node e0).
  { destruct kind.
    - unfold gen_integer_constant in He.
      apply bind_Ok in He. destruct He as (v & r3 & Hv & He).
      apply ret_Ok in He. destruct He as [<- _].
      eapply Node_integer; eassumption.
    - unfold gen_double_constant in He.
      apply bind_Ok in He. destruct He as (v & r3 & Hv & He).
      apply ret_Ok in He. destruct He as [<- _].
      eapply Node_double; eassumption.
    - unfold gen_variable_expr in He.
      apply ret_Ok in He. destruct He as [<- _].
      eapply Node_variable; eassumption.
    - apply gen_binary_expr_Ok in He.
      destruct He as (op & l0 & r0 & ra & rb & Hop & Hl & Hr & ->).
      assert (HInv' : Inv (dampened cfg_ w ExprKind.BinaryExpr))
        by (eapply Inv_binary; eassumption).
      eapply Node_binary; [exact HInv | exact Hk | exact Hop | |].
      + eapply IH; eassumption.
      + eapply IH; eassumption.
    - apply gen_unary_expr_Ok in He.
      destruct He as (e1 & op & ra & Hx & Hop & ->).
      assert (HInv' : Inv (dampened cfg_ w ExprKind.UnaryExpr))
        by (eapply Inv_unary; eassumption).
      eapply Node_unary; [exact HInv | exact Hk | | exact Hop].
      eapply IH; eassumption. }
  unfold maybe_parenthesized in Hp.
  apply bind_Ok in Hp. destruct Hp as (b & r3 & Hb & Hp).
  assert (e = if b then ParenthesizedExpr e0 else e0) as ->.
  { destruct b; apply ret_Ok in Hp; destruct Hp as [<- _]; reflexivity. }
  eapply Tree_parenthesized; eassumption.
Qed.

End TreeInduction.

Lemma all_nodes_parenthesized (p : Expr -> bool) (e : Expr) :
  p (ParenthesizedExpr e) = true -> all_nodes p e = true ->
  all_nodes p (ParenthesizedExpr e) = true.
Proof. intros Hp He. cbn [all_nodes]. rewrite Hp, He. reflexivity. Qed.

Lemma all_nodes_wrapped (p : Expr -> bool) (b : bool) (e : Expr) :
  (b = true -> p (ParenthesizedExpr e) = true) -> all_nodes p e = true ->
  all_nodes p (if b then ParenthesizedExpr e else e) = true.
Proof.
  intros Hp He. destruct b; [|exact He].
  apply all_nodes_parenthesized; [apply Hp; reflexivity | exact He].
Qed.

(** ** Precedence and parentheses, at every node *)

Section ParenthesesEverywhere.
Context {hdr : AstHeader} {R : Type} {rng : GeneratorRng R}.
Variable cfg : GenConfig.
Hypothesis parentheses_tightest :
  forall op, (ParenthesizedExpr_PRECEDENCE < bin_op_precedence op)%Z.
Hypothesis parentheses_tighter_than_unary :
  (ParenthesizedExpr_PRECEDENCE <= UnaryExpr_PRECEDENCE)%Z.

(** X9. When parentheses bind tighter than every binary operator and at
    least as tightly as the unary operators, every tree that [generate]
    returns keeps the precedence rule at every node, not only at the root:
    the left operand of each binary node has a precedence at most that of
    the operator, the right operand one strictly below it, and the operand
    of each unary node one at most [UnaryExpr::PRECEDENCE]. *)
Theorem generated_tree_operands_bind_tighter (fuel : nat) (tw : list Q)
    (r : R) (e : Expr) (r' : R) :
  generate cfg fuel tw r = Ok (e, r') ->
  all_nodes operands_bind_tighter_at e = true.
Proof.
  unfold generate. intros H.
  refine (@gen_with_weights_tree_ind _ _ _ cfg (fun _ => True)
            (fun e => all_nodes operands_bind_tighter_at e = true)
            (fun e => all_nodes operands_bind_tighter_at e = true)
            _ _ _ _ _ _ _ _ fuel _ r e r' I H);
    clear H; try (intros; exact I); try (intros; reflexivity).
  - intros w r0 r1 op r2 l0 r0' _ _ _ Hl Hr.
    cbn [all_nodes].
    rewrite !all_nodes_wrapped by (intros; assumption || reflexivity).
    rewrite !andb_true_r. cbn [operands_bind_tighter_at].
    pose proof (parentheses_tightest op) as Hop.
    apply andb_true_iff. split.
    + apply Z.leb_le.
      destruct (Z.gtb_spec (expr_precedence l0) (bin_op_precedence op));
        cbn [expr_precedence]; lia.
    + apply Z.ltb_lt.
      destruct (Z.geb_spec (expr_precedence r0') (bin_op_precedence op));
        cbn [expr_precedence]; lia.
  - intros w r0 r1 e0 r2 op r3 _ _ He _.
    cbn [all_nodes].
    rewrite all_nodes_wrapped by (intros; assumption || reflexivity).
    rewrite andb_true_r. cbn [operands_bind_tighter_at].
    apply Z.leb_le.
    destruct (Z.gtb_spec (expr_precedence e0) UnaryExpr_PRECEDENCE);
      cbn [expr_precedence]; lia.
  - intros e0 b r0 r1 He _.
    apply all_nodes_wrapped; [reflexivity | exact He].
Qed.

(** X10. Under the same two conditions no tree that [generate] returns has
    a pair of parentheses directly around another pair: an operand that
    [maybe_parenthesized] has wrapped is never wrapped again by the
    precedence rule. *)
Theorem generated_tree_no_double_parentheses (fuel : nat) (tw : list Q)
    (r : R) (e : Expr) (r' : R) :
  generate cfg fuel tw r = Ok (e, r') ->
  all_nodes no_double_parentheses_at e = true.
Proof.
  unfold generate. intros H.
  refine (@gen_with_weights_tree_ind _ _ _ cfg (fun _ => True)
            (fun e => all_nodes no_double_parentheses_at e = true
                      /\ is_parenthesized e = false)
            (fun e => all_nodes no_double_parentheses_at e = true)
            _ _ _ _ _ _ _ _ fuel _ r e r' I H);
    clear H; try (intros; exact I); try (intros; split; reflexivity).
  - intros w r0 r1 op r2 l0 r0' _ _ _ Hl Hr.
    split; [|reflexivity].
    pose proof (parentheses_tightest op) as Hop.
    cbn [all_nodes no_double_parentheses_at andb].
    apply andb_true_iff. split.
    + apply all_nodes_wrapped; [|exact Hl].
      intros Hw. apply Z.gtb_lt in Hw.
      destruct l0; try reflexivity. cbn [expr_precedence] in Hw. lia.
    + apply all_nodes_wrapped; [|exact Hr].
      intros Hw. apply Z.geb_le in Hw.
      destruct r0'; try reflexivity. cbn [expr_precedence] in Hw. lia.
  - intros w r0 r1 e0 r2 op r3 _ _ He _.
    split; [|reflexivity].
    cbn [all_nodes no_double_parentheses_at andb].
    apply all_nodes_wrapped; [|exact He].
    intros Hw. apply Z.gtb_lt in Hw.
    destruct e0; try reflexivity. cbn [expr_precedence] in Hw. lia.
  - intros e0 b r0 r1 [He Hroot] _.
    apply all_nodes_wrapped; [|exact He].
    intros _. destruct e0; try reflexivity. discriminate.
Qed.

End ParenthesesEverywhere.

(** ** Trees generated on the default source *)

Section DefaultTrees.
Context {hdr : AstHeader} {E : Type} {eng : RandomEngine E}.
Hypothesis contract : EngineContract E.
Variable cfg : GenConfig.

Lemma gen_parenthesize_zero (g g' : DefaultGeneratorRng (E := E)) b :
  (parenthesize_prob cfg == 0)%Q ->
  gen_parenthesize (parenthesize_prob cfg) g = Ok (b, g') -> b = false.
Proof.
  intros Hp.
  cbn [gen_parenthesize DefaultGeneratorRng_GeneratorRng].
  unfold Default_gen_parenthesize, on_engine, draw.
  pose proof (bernoulli_zero contract (parenthesize_prob cfg) (rng_ g) Hp) as Hb.
  destruct (bernoulli_distribution (parenthesize_prob cfg) (rng_ g)) as [b0 e].
  cbn [fst] in Hb. intros H. inversion H. congruence.
Qed.

Lemma unwrapped_not_parenthesized (e : Expr) :
  is_parenthesized e = false -> unwrapped e = e.
Proof. destruct e; try reflexivity. discriminate. Qed.

(** X11. With [parenthesize_prob] at zero the parentheses of a generated
    tree are exactly those that the precedence rule asks for: the root is
    not in parentheses, an operand is in parentheses if and only if its
    precedence is above (for a right operand: at or above) that of its
    operator, and no pair of parentheses is doubled. *)
Theorem generated_tree_parentheses_needed (fuel : nat) (tw : list Q)
    (g : DefaultGeneratorRng (E := E)) (e : Expr) g' :
  (parenthesize_prob cfg == 0)%Q ->
  generate cfg fuel tw g = Ok (e, g') ->
  all_nodes parentheses_needed_at e = true /\ is_parenthesized e = false.
Proof.
  unfold generate. intros Hp H.
  refine (@gen_with_weights_tree_ind _ _ _ cfg (fun _ => True)
            (fun e => all_nodes parentheses_needed_at e = true
                      /\ is_parenthesized e = false)
            (fun e => all_nodes parentheses_needed_at e = true
                      /\ is_parenthesized e = false)
            _ _ _ _ _ _ _ _ fuel _ g e g' I H);
    clear H; try (intros; exact I); try (intros; split; reflexivity).
  - intros w r0 r1 op r2 l0 r0' _ _ _ [Hl Hlroot] [Hr Hrroot].
    split; [|reflexivity].
    cbn [all_nodes]. apply andb_true_iff. split; [|apply andb_true_iff; split].
    + cbn [parentheses_needed_at].
      destruct (expr_precedence l0 >? bin_op_precedence op)%Z eqn:Cl;
      destruct (expr_precedence r0' >=? bin_op_precedence op)%Z eqn:Cr;
        cbn [is_parenthesized unwrapped];
        rewrite ?Hlroot, ?Hrroot, ?(unwrapped_not_parenthesized _ Hlroot),
          ?(unwrapped_not_parenthesized _ Hrroot), ?Cl, ?Cr; reflexivity.
    + apply all_nodes_wrapped; [|exact Hl].
      intros _. cbn [parentheses_needed_at]. rewrite Hlroot. reflexivity.
    + apply all_nodes_wrapped; [|exact Hr].
      intros _. cbn [parentheses_needed_at]. rewrite Hrroot. reflexivity.
  - intros w r0 r1 e0 r2 op r3 _ _ [He Heroot] _.
    split; [|reflexivity].
    cbn [all_nodes]. apply andb_true_iff. split.
    + cbn [parentheses_needed_at].
      destruct (expr_precedence e0 >? UnaryExpr_PRECEDENCE)%Z eqn:C;
        cbn [is_parenthesized unwrapped];
        rewrite ?Heroot, ?(unwrapped_not_parenthesized _ Heroot), ?C;
        reflexivity.
    + apply all_nodes_wrapped; [|exact He].
      intros _. cbn [parentheses_needed_at]. rewrite Heroot. reflexivity.
  - intros e0 b r0 r1 HN Hb.
    rewrite (gen_parenthesize_zero _ Hp Hb). exact HN.
Qed.

(** X12. Every operator of a generated tree is enabled in the
    configuration: each binary node carries an operator whose bit is set in
    [bin_op_mask] and each unary node one whose bit is set in [un_op_mask],
    with an index below the size of the mask. *)
Theorem generated_tree_operators_enabled (fuel : nat) (tw : list Q)
    (g : DefaultGeneratorRng (E := E)) (e : Expr) g' :
  generate cfg fuel tw g = Ok (e, g') ->
  all_nodes (operator_enabled_at cfg) e = true.
Proof.
  unfold generate. intros H.
  refine (@gen_with_weights_tree_ind _ _ _ cfg (fun _ => True)
            (fun e => all_nodes (operator_enabled_at cfg) e = true)
            (fun e => all_nodes (operator_enabled_at cfg) e = true)
            _ _ _ _ _ _ _ _ fuel _ g e g' I H);
    clear H; try (intros; exact I); try (intros; reflexivity).
  - intros w r0 r1 op r2 l0 r0' _ _ Hop Hl Hr.
    destruct (gen_bin_op_Ok contract _ _ Hop) as (i & -> & Hi & Hbit).
    cbn [all_nodes operator_enabled_at].
    rewrite !all_nodes_wrapped by (intros; assumption || reflexivity).
    rewrite Hbit. apply Nat.ltb_lt in Hi. rewrite Hi. reflexivity.
  - intros w r0 r1 e0 r2 op r3 _ _ He Hop.
    destruct (gen_un_op_Ok contract _ _ Hop) as (i & -> & Hi & Hbit).
    cbn [all_nodes operator_enabled_at].
    rewrite all_nodes_wrapped by (intros; assumption || reflexivity).
    rewrite Hbit. apply Nat.ltb_lt in Hi. rewrite Hi. reflexivity.
  - intros e0 b r0 r1 He _.
    apply all_nodes_wrapped; [reflexivity | exact He].
Qed.

(** X13. When [int_const_min <= int_const_max] and
    [double_constant_min <= double_constant_max], the leaves of a generated
    tree respect the configuration: each integer constant lies in
    [[int_const_min, int_const_max]], each double constant is at least
    [double_constant_min], and each variable is [VAR]. Nothing is said of
    the upper end of the double range. *)
Theorem generated_tree_leaves_in_range (fuel : nat) (tw : list Q)
    (g : DefaultGeneratorRng (E := E)) (e : Expr) g' :
  (int_const_min cfg <= int_const_max cfg)%Z ->
  (double_constant_min cfg <= double_constant_max cfg)%Q ->
  generate cfg fuel tw g = Ok (e, g') ->
  all_nodes (leaf_in_range_at cfg) e = true.
Proof.
  unfold generate. intros Hint Hdbl H.
  refine (@gen_with_weights_tree_ind _ _ _ cfg (fun _ => True)
            (fun e => all_nodes (leaf_in_range_at cfg) e = true)
            (fun e => all_nodes (leaf_in_range_at cfg) e = true)
            _ _ _ _ _ _ _ _ fuel _ g e g' I H);
    clear H; try (intros; exact I).
  - intros w r0 r1 v r2 _ _ Hv.
    cbn [gen_u64 DefaultGeneratorRng_GeneratorRng] in Hv.
    unfold Default_gen_u64, on_engine, draw in Hv.
    pose proof (uniform_int_range contract _ _ (rng_ r1) Hint) as B.
    destruct (uniform_int_distribution _ _ (rng_ r1)) as [v0 e1].
    inversion Hv. subst. cbn [fst] in B.
    cbn [all_nodes leaf_in_range_at]. rewrite andb_true_r.
    apply andb_true_iff. split; apply Z.leb_le; lia.
  - intros w r0 r1 v r2 _ _ Hv.
    cbn [gen_double DefaultGeneratorRng_GeneratorRng] in Hv.
    unfold Default_gen_double, on_engine, draw in Hv.
    pose proof (uniform_real_lower contract _ _ (rng_ r1) Hdbl) as Lo.
    destruct (uniform_real_distribution _ _ (rng_ r1)) as [v0 e1].
    inversion Hv. subst. cbn [fst] in Lo.
    cbn [all_nodes leaf_in_range_at]. rewrite andb_true_r.
    apply Qle_bool_iff. exact Lo.
  - intros w r0 r1 _ _.
    cbn [all_nodes leaf_in_range_at]. rewrite String.eqb_refl. reflexivity.
  - intros w r0 r1 op r2 l0 r0' _ _ _ Hl Hr.
    cbn [all_nodes leaf_in_range_at].
    rewrite !all_nodes_wrapped by (intros; assumption || reflexivity).
    reflexivity.
  - intros w r0 r1 e0 r2 op r3 _ _ He _.
    cbn [all_nodes leaf_in_range_at].
    rewrite all_nodes_wrapped by (intros; assumption || reflexivity).
    reflexivity.
  - intros e0 b r0 r1 He _.
    apply all_nodes_wrapped; [reflexivity | exact He].
Qed.

End DefaultTrees.

Section AbsentKinds.
Context {hdr : AstHeader} {E : Type} {eng : RandomEngine E}.
Hypothesis contract : EngineContract E.
Variable cfg : GenConfig.
Variable k : ExprKind.t.

Hypothesis not_initial_value : k <> ExprKind.IntegerConstant.

(** The weights along a run when the kind [k] starts at weight zero. *)
Let never_drawn (w : Weights) : Prop :=
  (forall k', (0 <= KindArray.get (expr_weights w) k')%Q) /\
  (KindArray.get (expr_weights w) k == 0)%Q.

Lemma never_drawn_kind (w : Weights) (g g' : DefaultGeneratorRng (E := E)) k0 :
  never_drawn w -> gen_expr_kind w g = Ok (k0, g') -> k0 <> k.
Proof.
  intros (Hnn & Hzero) Hk0 ->.
  destruct (gen_expr_kind_Ok contract w g Hnn Hk0) as [Hpos|[Hk _]].
  - rewrite Hzero in Hpos. lra.
  - exact (not_initial_value Hk).
Qed.

Lemma never_drawn_dampened (w : Weights) (kind : ExprKind.t) :
  (0 <= dampening_factor (KindArray.get (expr_kind_weights cfg) kind))%Q ->
  kind = ExprKind.BinaryExpr \/ kind = ExprKind.UnaryExpr ->
  never_drawn w -> never_drawn (dampened cfg w kind).
Proof.
  intros Hd Hkind (Hnn & Hzero).
  unfold never_drawn, dampened, Weights_scale. cbn [expr_weights].
  split.
  - intros k'. destruct (ExprKind.eqb k' kind) eqn:Eq.
    + assert (k' = kind) as -> by (destruct k', kind; congruence || discriminate).
      rewrite KindArray_get_set_same. apply Qmult_le_0_compat; [apply Hnn | exact Hd].
    + rewrite KindArray_get_set_other; [apply Hnn|].
      intros ->. destruct kind; discriminate.
  - destruct (ExprKind.eqb k kind) eqn:Eq.
    + assert (k = kind) as <- by (destruct k, kind; congruence || discriminate).
      rewrite KindArray_get_set_same. rewrite Hzero. ring.
    + rewrite KindArray_get_set_other; [exact Hzero|].
      intros ->. destruct kind; discriminate.
Qed.

(** X14. A kind other than [IntegerConstant] whose initial weight is zero
    never appears in a generated tree, provided the initial weights and the
    dampening factors of the two recursive kinds are non-negative.
    [IntegerConstant] is left out: it is the initial value that
    [gen_expr_kind] returns when its loop ends without a [break], whatever
    its weight. *)
Theorem generated_tree_omits_zero_weight_kind (fuel : nat) (tw : list Q)
    (g : DefaultGeneratorRng (E := E)) (e : Expr) g' :
  (forall k', (0 <= initial_weight
                      (KindArray.get (expr_kind_weights cfg) k'))%Q) ->
  (0 <= dampening_factor (at_BinaryExpr (expr_kind_weights cfg)))%Q ->
  (0 <= dampening_factor (at_UnaryExpr (expr_kind_weights cfg)))%Q ->
  (initial_weight (KindArray.get (expr_kind_weights cfg) k) == 0)%Q ->
  generate cfg fuel tw g = Ok (e, g') ->
  all_nodes (not_of_kind k) e = true.
Proof.
  unfold generate. intros Hnn Hdb Hdu Hzero H.
  assert (Hinit : never_drawn (initial_weights cfg tw)).
  { unfold never_drawn, initial_weights. cbn [expr_weights].
    split.
    - intros k'. specialize (Hnn k'). destruct k'; exact Hnn.
    - destruct k; exact Hzero. }
  assert (Hnode : forall w (r0 r1 : DefaultGeneratorRng (E := E)) k0 x,
             never_drawn w -> gen_expr_kind w r0 = Ok (k0, r1) ->
             node_kind x = Some k0 -> not_of_kind k x = true).
  { intros w r0 r1 k0 x Hw Hk0 Hx.
    pose proof (never_drawn_kind _ Hw Hk0) as Hne.
    unfold not_of_kind. rewrite Hx.
    destruct k0, k; try reflexivity; congruence. }
  refine (@gen_with_weights_tree_ind _ _ _ cfg never_drawn
            (fun e => all_nodes (not_of_kind k) e = true)
            (fun e => all_nodes (not_of_kind k) e = true)
            _ _ _ _ _ _ _ _ fuel _ g e g' Hinit H); clear H.
  - intros w r r1 Hw _. apply never_drawn_dampened; [exact Hdb | left; reflexivity | exact Hw].
  - intros w r r1 Hw _. apply never_drawn_dampened; [exact Hdu | right; reflexivity | exact Hw].
  - intros w r0 r1 v r2 Hw Hk0 _. cbn [all_nodes].
    rewrite (Hnode w r0 r1 _ (IntegerConstant v) Hw Hk0 eq_refl). reflexivity.
  - intros w r0 r1 v r2 Hw Hk0 _. cbn [all_nodes].
    rewrite (Hnode w r0 r1 _ (DoubleConstant v) Hw Hk0 eq_refl). reflexivity.
  - intros w r0 r1 Hw Hk0. cbn [all_nodes].
    rewrite (Hnode w r0 r1 _ (VariableExpr VAR) Hw Hk0 eq_refl). reflexivity.
  - intros w r0 r1 op r2 l0 r0' Hw Hk0 _ Hl Hr. cbn [all_nodes].
    rewrite (Hnode w r0 r1 _ (BinaryExpr _ op _) Hw Hk0 eq_refl).
    rewrite !all_nodes_wrapped by (intros; assumption || reflexivity).
    reflexivity.
  - intros w r0 r1 e0 r2 op r3 Hw Hk0 He _. cbn [all_nodes].
    rewrite (Hnode w r0 r1 _ (UnaryExpr op _) Hw Hk0 eq_refl).
    rewrite all_nodes_wrapped by (intros; assumption || reflexivity).
    reflexivity.
  - intros e0 b r0 r1 He _.
    apply all_nodes_wrapped; [reflexivity | exact He].
Qed.

End AbsentKinds.

(** ** The draws of a run and the tree it returns *)

Section DrawAccounting.
Context {hdr : AstHeader} {R : Type} {rng : GeneratorRng R}.
Variable cfg : GenConfig.

Lemma draw_count_wrapped (b : bool) (e : Expr) :
  draw_count (if b then ParenthesizedExpr e else e) = draw_count e.
Proof. destruct b; reflexivity. Qed.

Lemma gen_with_weights_draw_count :
  forall fuel w (r : Recording R) e r',
    gen_with_weights cfg fuel w r = Ok (e, r') ->
    List.length (draws r') = (List.length (draws r) + draw_count e)%nat.
Proof.
  induction fuel as [|fuel IH]; intros w r e r' H; [discriminate|].
  apply gen_with_weights_Ok in H.
  destruct H as (kind & r1 & e0 & r2 & Hk & He & Hp).
  pose proof (maybe_parenthesized_draws _ _ _ Hp) as Hd.
  assert (He' : draw_count e = draw_count e0).
  { unfold maybe_parenthesized in Hp.
    apply bind_Ok in Hp. destruct Hp as (b & r3 & _ & Hp).
    destruct b; apply ret_Ok in Hp; destruct Hp as [<- _]; reflexivity. }
  cbn [gen_expr_kind Recording_GeneratorRng] in Hk.
  apply recorded_Ok in Hk. destruct Hk as (s1 & _ & ->).
  rewrite Hd, He', length_app. cbn [List.length].
  assert (Hmid : (List.length (draws r2) + 1
                  = List.length (draws r) + draw_count e0)%nat);
    [|lia].
  destruct kind.
  - unfold gen_integer_constant in He.
    apply bind_Ok in He. destruct He as (v & r3 & Hv & He).
    cbn [gen_u64 Recording_GeneratorRng] in Hv.
    apply recorded_Ok in Hv. destruct Hv as (s & _ & ->).
    apply ret_Ok in He. destruct He as [<- <-].
    cbn [draws draw_count]. rewrite !length_app. cbn [List.length]. lia.
  - unfold gen_double_constant in He.
    apply bind_Ok in He. destruct He as (v & r3 & Hv & He).
    cbn [gen_double Recording_GeneratorRng] in Hv.
    apply recorded_Ok in Hv. destruct Hv as (s & _ & ->).
    apply ret_Ok in He. destruct He as [<- <-].
    cbn [draws draw_count]. rewrite !length_app. cbn [List.length]. lia.
  - unfold gen_variable_expr in He.
    apply ret_Ok in He. destruct He as [<- <-].
    cbn [draws draw_count]. rewrite !length_app. cbn [List.length]. lia.
  - apply gen_binary_expr_Ok in He.
    destruct He as (op & l0 & r0 & ra & rb & Hop & Hl & Hr & ->).
    cbn [gen_bin_op Recording_GeneratorRng] in Hop.
    apply recorded_Ok in Hop. destruct Hop as (s & _ & ->).
    apply IH in Hl. apply IH in Hr.
    cbn [draws draw_count] in *. rewrite !draw_count_wrapped.
    rewrite !length_app in Hl. cbn [List.length] in Hl. lia.
  - apply gen_unary_expr_Ok in He.
    destruct He as (e1 & op & ra & Hx & Hop & ->).
    apply IH in Hx.
    cbn [gen_un_op Recording_GeneratorRng] in Hop.
    apply recorded_Ok in Hop. destruct Hop as (s & _ & ->).
    cbn [draws draw_count] in *. rewrite draw_count_wrapped.
    rewrite !length_app in *. cbn [List.length] in *. lia.
Qed.

(** X15. The number of draws of a run is read off the tree it returns:
    three draws for each constant and each operator node, two for each
    variable, none for parentheses. *)
Theorem generate_draw_count (fuel : nat) (tw : list Q) (r : R)
    (e : Expr) (r' : Recording R) :
  generate cfg fuel tw (record_from r) = Ok (e, r') ->
  List.length (draws r') = draw_count e.
Proof.
  unfold generate. intros H.
  apply gen_with_weights_draw_count in H. exact H.
Qed.

End DrawAccounting.

(** ** The dampening factors of the kinds without children *)

Section LeafDampening.
Context {hdr : AstHeader} {R : Type} {rng : GeneratorRng R}.

Lemma gen_with_weights_same_but_leaf_dampening (cfg1 cfg2 : GenConfig) :
  same_but_leaf_dampening cfg1 cfg2 ->
  forall fuel weights r,
    gen_with_weights cfg1 fuel weights r = gen_with_weights cfg2 fuel weights r.
Proof.
  intros (Himin & Himax & Hdmin & Hdmax & Hbin & Hun & Hpar & _ & Hdb & Hdu).
  induction fuel as [|fuel IH]; intros weights r; [reflexivity|].
  cbn [gen_with_weights].
  apply bind_congr; [reflexivity|]. intros kind r1.
  apply bind_congr.
  - destruct kind.
    + unfold gen_integer_constant. rewrite Himin, Himax. reflexivity.
    + unfold gen_double_constant. rewrite Hdmin, Hdmax. reflexivity.
    + reflexivity.
    + assert (Hd : dampened cfg1 weights ExprKind.BinaryExpr
                   = dampened cfg2 weights ExprKind.BinaryExpr).
      { unfold dampened. cbn [KindArray.get]. rewrite Hdb. reflexivity. }
      rewrite Hd. unfold gen_binary_expr. rewrite Hbin.
      apply bind_congr; [reflexivity|]. intros op r2.
      apply bind_congr; [apply IH|]. intros l0 r3.
      apply bind_congr; [apply IH|]. intros r0 r4. reflexivity.
    + assert (Hd : dampened cfg1 weights ExprKind.UnaryExpr
                   = dampened cfg2 weights ExprKind.UnaryExpr).
      { unfold dampened. cbn [KindArray.get]. rewrite Hdu. reflexivity. }
      rewrite Hd. unfold gen_unary_expr. rewrite Hun.
      apply bind_congr; [apply IH|]. intros e0 r2. reflexivity.
  - intros e0 r2. unfold maybe_parenthesized. rewrite Hpar. reflexivity.
Qed.

(** X16. The dampening factors configured for [IntegerConstant],
    [DoubleConstant] and [VariableExpr] have no effect: the dampened copy
    made for a leaf is never read, so two configurations that differ only
    in these three factors give the same outcome from the same source
    state. *)
Theorem generate_ignores_leaf_dampening (cfg1 cfg2 : GenConfig)
    (fuel : nat) (tw : list Q) (r : R) :
  same_but_leaf_dampening cfg1 cfg2 ->
  generate cfg1 fuel tw r = generate cfg2 fuel tw r.
Proof.
  intros Hsame. unfold generate.
  assert (Hw : initial_weights cfg1 tw = initial_weights cfg2 tw).
  { unfold initial_weights.
    destruct Hsame as (_ & _ & _ & _ & _ & _ & _ & -> & _). reflexivity. }
  rewrite Hw. apply gen_with_weights_same_but_leaf_dampening. exact Hsame.
Qed.

End LeafDampening.

(** ** The weights seen along a run *)

Lemma decayed_from_refl (w : Weights) :
  (0 <= at_BinaryExpr (expr_weights w))%Q ->
  (0 <= at_UnaryExpr (expr_weights w))%Q ->
  decayed_from w w.
Proof.
  intros Hb Hu. unfold decayed_from.
  repeat split; try reflexivity; try assumption; apply Qle_refl.
Qed.

Lemma decayed_from_trans (w1 w2 w3 : Weights) :
  decayed_from w1 w2 -> decayed_from w2 w3 -> decayed_from w1 w3.
Proof.
  unfold decayed_from.
  intros (Hi & Hd & Hv & Ht & Hb & Hu) (Hi' & Hd' & Hv' & Ht' & Hb' & Hu').
  repeat split; try congruence; try lra.
Qed.

Section WeightDecay.
Context {hdr : AstHeader} {R : Type} {rng : GeneratorRng R}.
Variable cfg : GenConfig.
Hypothesis binary_factor :
  (0 <= dampening_factor (at_BinaryExpr (expr_kind_weights cfg)) <= 1)%Q.
Hypothesis unary_factor :
  (0 <= dampening_factor (at_UnaryExpr (expr_kind_weights cfg)) <= 1)%Q.

Lemma decayed_from_dampened (w : Weights) (kind : ExprKind.t) :
  kind = ExprKind.BinaryExpr \/ kind = ExprKind.UnaryExpr ->
  (0 <= at_BinaryExpr (expr_weights w))%Q ->
  (0 <= at_UnaryExpr (expr_weights w))%Q ->
  decayed_from w (dampened cfg w kind).
Proof.
  intros Hkind Hb Hu.
  destruct Hkind as [-> | ->]; unfold decayed_from, dampened, Weights_scale;
    cbn [expr_weights type_weights KindArray.get KindArray.set
         at_IntegerConstant at_DoubleConstant at_VariableExpr
         at_BinaryExpr at_UnaryExpr].
  - set (d := dampening_factor (at_BinaryExpr (expr_kind_weights cfg))) in *.
    pose proof (Qmult_le_0_compat _ _ Hb (proj1 binary_factor)).
    pose proof (Qmult_le_compat_r _ _ _ (proj2 binary_factor) Hb).
    repeat split; try reflexivity; lra.
  - set (d := dampening_factor (at_UnaryExpr (expr_kind_weights cfg))) in *.
    pose proof (Qmult_le_0_compat _ _ Hu (proj1 unary_factor)).
    pose proof (Qmult_le_compat_r _ _ _ (proj2 unary_factor) Hu).
    repeat split; try reflexivity; lra.
Qed.

Lemma gen_with_weights_weights_decay :
  forall fuel w (r : Recording R) e r',
    (0 <= at_BinaryExpr (expr_weights w))%Q ->
    (0 <= at_UnaryExpr (expr_weights w))%Q ->
    gen_with_weights cfg fuel w r = Ok (e, r') ->
    exists new,
      draws r' = draws r ++ new /\
      Forall (fun d => forall w', drawn_weights d = Some w' -> decayed_from w w')
        new.
Proof.
  induction fuel as [|fuel IH]; intros w r e r' Hb Hu H; [discriminate|].
  apply gen_with_weights_Ok in H.
  destruct H as (kind & r1 & e0 & r2 & Hk & He & Hp).
  apply maybe_parenthesized_draws in Hp.
  cbn [gen_expr_kind Recording_GeneratorRng] in Hk.
  apply recorded_Ok in Hk. destruct Hk as (s1 & _ & ->).
  assert (Hself : forall w', drawn_weights (DrawExprKind w) = Some w' ->
                             decayed_from w w').
  { intros w' Hw'. inversion Hw'. subst. apply decayed_from_refl; assumption. }
  assert (Hmid : exists mid,
             draws r2 = (draws r ++ [DrawExprKind w]) ++ mid /\
             Forall (fun d => forall w', drawn_weights d = Some w' ->
                                         decayed_from w w') mid).
  { destruct kind.
    - unfold gen_integer_constant in He.
      apply bind_Ok in He. destruct He as (v & r3 & Hv & He).
      cbn [gen_u64 Recording_GeneratorRng] in Hv.
      apply recorded_Ok in Hv. destruct Hv as (s & _ & ->).
      apply ret_Ok in He. destruct He as [_ <-].
      eexists. split; [reflexivity|].
      constructor; [intros w' Hw'; discriminate | constructor].
    - unfold gen_double_constant in He.
      apply bind_Ok in He. destruct He as (v & r3 & Hv & He).
      cbn [gen_double Recording_GeneratorRng] in Hv.
      apply recorded_Ok in Hv. destruct Hv as (s & _ & ->).
      apply ret_Ok in He. destruct He as [_ <-].
      eexists. split; [reflexivity|].
      constructor; [intros w' Hw'; discriminate | constructor].
    - unfold gen_variable_expr in He.
      apply ret_Ok in He. destruct He as [_ <-].
      exists []. split; [cbn [draws]; rewrite app_nil_r; reflexivity | constructor].
    - pose proof (@decayed_from_dampened w ExprKind.BinaryExpr
                    ltac:(left; reflexivity) Hb Hu) as Hstep.
      pose proof Hstep as (_ & _ & _ & _ & Hsb & Hsu).
      apply gen_binary_expr_Ok in He.
      destruct He as (op & l0 & r0 & ra & rb & Hop & Hl & Hr & _).
      cbn [gen_bin_op Recording_GeneratorRng] in Hop.
      apply recorded_Ok in Hop. destruct Hop as (s & _ & ->).
      apply IH in Hl; [|apply Hsb | apply Hsu].
      destruct Hl as (nl & Hl & Fl).
      apply IH in Hr; [|apply Hsb | apply Hsu].
      destruct Hr as (nr & Hr & Fr).
      cbn [draws] in Hl. rewrite Hl in Hr.
      exists ([DrawBinOp (bin_op_mask cfg)] ++ nl ++ nr). split.
      + rewrite Hr. rewrite <- !app_assoc. reflexivity.
      + apply Forall_app. split; [constructor; [intros w' Hw'; discriminate | constructor]|].
        apply Forall_app. split.
        * eapply Forall_impl; [|exact Fl]. intros d Hd w' Hw'.
          eapply decayed_from_trans; [exact Hstep | apply Hd; exact Hw'].
        * eapply Forall_impl; [|exact Fr]. intros d Hd w' Hw'.
          eapply decayed_from_trans; [exact Hstep | apply Hd; exact Hw'].
    - pose proof (@decayed_from_dampened w ExprKind.UnaryExpr
                    ltac:(right; reflexivity) Hb Hu) as Hstep.
      pose proof Hstep as (_ & _ & _ & _ & Hsb & Hsu).
      apply gen_unary_expr_Ok in He.
      destruct He as (e1 & op & ra & Hx & Hop & _).
      apply IH in Hx; [|apply Hsb | apply Hsu].
      destruct Hx as (nx & Hx & Fx).
      cbn [gen_un_op Recording_GeneratorRng] in Hop.
      apply recorded_Ok in Hop. destruct Hop as (s & _ & ->).
      cbn [draws] in *. rewrite Hx.
      exists (nx ++ [DrawUnOp (un_op_mask cfg)]). split.
      + rewrite <- !app_assoc. reflexivity.
      + apply Forall_app. split.
        * eapply Forall_impl; [|exact Fx]. intros d Hd w' Hw'.
          eapply decayed_from_trans; [exact Hstep | apply Hd; exact Hw'].
        * constructor; [intros w' Hw'; discriminate | constructor]. }
  destruct Hmid as (mid & Hm & Fm).
  exists ([DrawExprKind w] ++ mid
          ++ [DrawParenthesize (parenthesize_prob cfg)]). split.
  - rewrite Hp, Hm. rewrite <- !app_assoc. reflexivity.
  - apply Forall_app. split; [constructor; [exact Hself | constructor]|].
    apply Forall_app. split; [exact Fm|].
    constructor; [intros w' Hw'; discriminate | constructor].
Qed.

(** X17. When the dampening factors of the two recursive kinds lie in
    [[0, 1]] and the initial weights of these kinds are non-negative, the
    weights on which any kind is drawn during a run never grow and the
    leaf weights never change: each recorded kind draw is made on weights
    whose [IntegerConstant], [DoubleConstant] and [VariableExpr] slots and
    type slots are the initial ones and whose [BinaryExpr] and [UnaryExpr]
    slots lie between zero and the initial ones. *)
Theorem generate_weights_decay (fuel : nat) (tw : list Q) (r : R)
    (e : Expr) (r' : Recording R) :
  (0 <= initial_weight (at_BinaryExpr (expr_kind_weights cfg)))%Q ->
  (0 <= initial_weight (at_UnaryExpr (expr_kind_weights cfg)))%Q ->
  generate cfg fuel tw (record_from r) = Ok (e, r') ->
  forall w', In (DrawExprKind w') (draws r') ->
             decayed_from (initial_weights cfg tw) w'.
Proof.
  unfold generate. intros Hb Hu H w' Hin.
  apply gen_with_weights_weights_decay in H; [|exact Hb | exact Hu].
  destruct H as (new & Hd & F).
  rewrite Hd in Hin. cbn [record_from draws app] in Hin.
  rewrite Forall_forall in F. apply (F _ Hin). reflexivity.
Qed.

End WeightDecay.

(** ** Runs of the sample configuration *)

Lemma sample_header_parentheses_tightest :
  forall op,
    (@ParenthesizedExpr_PRECEDENCE sample_header
     < @bin_op_precedence sample_header op)%Z.
Proof.
  intros [i]. cbn.
  do 18 (destruct i as [|i]; [cbn; lia|]). destruct i; cbn; lia.
Qed.

Section TreeRuns.
#[local] Existing Instance sample_header.

Lemma generated_tree_operands_bind_tighter_witness :
  all_nodes operands_bind_tighter_at sample_tree_parens = true.
Proof.
  apply (generated_tree_operands_bind_tighter sample_config
           sample_header_parentheses_tightest ltac:(cbn; lia)
           3 [] (default_rng sample_tape_parens) (r' := default_rng [])).
  vm_compute. reflexivity.
Defined.

Lemma generated_tree_no_double_parentheses_witness :
  all_nodes no_double_parentheses_at sample_tree_parens = true.
Proof.
  apply (generated_tree_no_double_parentheses sample_config
           sample_header_parentheses_tightest ltac:(cbn; lia)
           3 [] (default_rng sample_tape_parens) (r' := default_rng [])).
  vm_compute. reflexivity.
Defined.

Lemma generated_tree_parentheses_needed_witness :
  all_nodes parentheses_needed_at sample_tree = true
  /\ is_parenthesized sample_tree = false.
Proof.
  apply (generated_tree_parentheses_needed Tape_contract
           sample_config_no_parens 3 [] (default_rng sample_tape)
           (g' := default_rng [])).
  - reflexivity.
  - vm_compute. reflexivity.
Defined.

Lemma generated_tree_operators_enabled_witness :
  all_nodes (operator_enabled_at sample_config) sample_tree = true.
Proof.
  apply (generated_tree_operators_enabled Tape_contract sample_config
           3 [] (default_rng sample_tape) (g' := default_rng [])).
  vm_compute. reflexivity.
Defined.

Lemma generated_tree_leaves_in_range_witness :
  all_nodes (leaf_in_range_at sample_config) sample_tree = true.
Proof.
  apply (generated_tree_leaves_in_range Tape_contract sample_config
           3 [] (default_rng sample_tape) (g' := default_rng [])).
  - cbn. lia.
  - vm_compute. discriminate.
  - vm_compute. reflexivity.
Defined.

Lemma generated_tree_omits_zero_weight_kind_witness :
  all_nodes (not_of_kind ExprKind.UnaryExpr)
    (ParenthesizedExpr (IntegerConstant 0)) = true.
Proof.
  refine (@generated_tree_omits_zero_weight_kind _ _ _ Tape_contract
            (integer_only_config (1 # 2)) ExprKind.UnaryExpr _
            1 [] (default_rng [3; 4; 5; 6]%Z)
            (ParenthesizedExpr (IntegerConstant 0)) (default_rng [6%Z])
            _ _ _ _ _).
  - discriminate.
  - intros k'. destruct k'; vm_compute; discriminate.
  - vm_compute. discriminate.
  - vm_compute. discriminate.
  - reflexivity.
  - vm_compute. reflexivity.
Defined.

Lemma generate_draw_count_witness :
  List.length
    (draws
       {| source := default_rng [];
          draws :=
            [DrawExprKind sample_weights; DrawBinOp 15;
             DrawExprKind (dampened sample_config sample_weights
                             ExprKind.BinaryExpr);
             DrawU64 0 1000; DrawParenthesize (1 # 4);
             DrawExprKind (dampened sample_config sample_weights
                             ExprKind.BinaryExpr);
             DrawU64 0 1000; DrawParenthesize (1 # 4);
             DrawParenthesize (1 # 4)] |})
  = draw_count
      (BinaryExpr (IntegerConstant 7) (BinOp_of_index 2) (IntegerConstant 9)).
Proof.
  apply (generate_draw_count sample_config 2 []
           (default_rng [700; 2; 0; 7; 999; 0; 9; 999; 999]%Z)).
  vm_compute. reflexivity.
Defined.

Lemma generate_ignores_leaf_dampening_witness :
  generate sample_config 3 [] (default_rng sample_tape)
  = generate sample_config_leaf_damped 3 [] (default_rng sample_tape).
Proof.
  apply (@generate_ignores_leaf_dampening _ _ _ sample_config
           sample_config_leaf_damped 3 [] (default_rng sample_tape)).
  repeat split; reflexivity.
Defined.

Lemma generate_weights_decay_witness :
  decayed_from (initial_weights sample_config [])
    (dampened sample_config sample_weights ExprKind.BinaryExpr).
Proof.
  refine (@generate_weights_decay _ _ _ sample_config _ _
            2 [] (default_rng [700; 2; 0; 7; 999; 0; 9; 999; 999]%Z)
            (BinaryExpr (IntegerConstant 7) (BinOp_of_index 2)
               (IntegerConstant 9))
            {| source := default_rng [];
               draws :=
                 [DrawExprKind sample_weights; DrawBinOp 15;
                  DrawExprKind (dampened sample_config sample_weights
                                  ExprKind.BinaryExpr);
                  DrawU64 0 1000; DrawParenthesize (1 # 4);
                  DrawExprKind (dampened sample_config sample_weights
                                  ExprKind.BinaryExpr);
                  DrawU64 0 1000; DrawParenthesize (1 # 4);
                  DrawParenthesize (1 # 4)] |}
            _ _ _ _ _).
  - split; vm_compute; discriminate.
  - split; vm_compute; discriminate.
  - vm_compute. discriminate.
  - vm_compute. discriminate.
  - vm_compute. reflexivity.
  - cbn [draws]. right. right. left. reflexivity.
Defined.

End TreeRuns.

(** * Failures of a run *)

Lemma bind_Abort {R A B : Type} (m : M R A) (k : A -> M R B) (r : R) f :
  bind m k r = Abort f ->
  m r = Abort f \/ exists a r1, m r = Ok (a, r1) /\ k a r1 = Abort f.
Proof.
  unfold bind. destruct (m r) as [[a r1]|f0|]; try discriminate.
  - intros H. right. exists a, r1. split; [reflexivity | exact H].
  - intros H. left. injection H as ->. reflexivity.
Qed.

Lemma pick_nth_set_bit_Abort {E : Type} {eng : RandomEngine E}
    (contract : EngineContract E) (N : nat) (mask : Z) (rng : E) f :
  pick_nth_set_bit N mask rng = Abort f ->
  f = AssertionFailed "Mask must not be empty" /\ bitset_any N mask = false.
Proof.
  unfold pick_nth_set_bit.
  destruct (bitset_any N mask) eqn:Hany; cbn [negb].
  - set (popcount := Z.of_nat (bitset_count N mask)).
    assert (Hpc : (1 <= popcount)%Z).
    { apply bitset_any_count in Hany. unfold popcount. lia. }
    pose proof (uniform_int_range contract 1 popcount rng Hpc) as Hch.
    destruct (uniform_int_distribution 1 popcount rng) as [choice e1].
    cbn [fst] in Hch.
    destruct (@pick_scan_from_start N mask choice Hch) as (p & Hp & _).
    rewrite Hp. discriminate.
  - intros H. inversion H. split; reflexivity.
Qed.

Section Failures.
Context {hdr : AstHeader} {E : Type} {eng : RandomEngine E}.
Hypothesis contract : EngineContract E.
Variable cfg : GenConfig.

Lemma on_engine_Abort {A : Type} (m : M E A) (g : DefaultGeneratorRng (E := E)) f :
  on_engine m g = Abort f -> m (rng_ g) = Abort f.
Proof.
  unfold on_engine. destruct (m (rng_ g)) as [[a e]|f0|]; try discriminate.
  intros H. injection H as ->. reflexivity.
Qed.

Lemma gen_bin_op_Abort (mask : Z) (g : DefaultGeneratorRng (E := E)) f :
  gen_bin_op mask g = Abort f ->
  f = AssertionFailed "Mask must not be empty"
  /\ bitset_any NUM_BIN_OPS mask = false.
Proof.
  cbn [gen_bin_op DefaultGeneratorRng_GeneratorRng].
  unfold Default_gen_bin_op. intros H. apply on_engine_Abort in H.
  apply bind_Abort in H. destruct H as [H | (a & r1 & _ & H)]; [|discriminate].
  exact (pick_nth_set_bit_Abort contract _ _ _ H).
Qed.

Lemma gen_un_op_Abort (mask : Z) (g : DefaultGeneratorRng (E := E)) f :
  gen_un_op mask g = Abort f ->
  f = AssertionFailed "Mask must not be empty"
  /\ bitset_any NUM_UN_OPS mask = false.
Proof.
  cbn [gen_un_op DefaultGeneratorRng_GeneratorRng].
  unfold Default_gen_un_op. intros H. apply on_engine_Abort in H.
  apply bind_Abort in H. destruct H as [H | (a & r1 & _ & H)]; [|discriminate].
  exact (pick_nth_set_bit_Abort contract _ _ _ H).
Qed.

Lemma gen_expr_kind_not_Abort (w : Weights) (g : DefaultGeneratorRng (E := E)) f :
  gen_expr_kind w g <> Abort f.
Proof.
  cbn [gen_expr_kind DefaultGeneratorRng_GeneratorRng].
  unfold Default_gen_expr_kind, on_engine, bind, draw, ret.
  destruct (uniform_real_distribution _ _ (rng_ g)). discriminate.
Qed.

Lemma maybe_parenthesized_not_Abort (e : Expr)
    (g : DefaultGeneratorRng (E := E)) f :
  maybe_parenthesized cfg e g <> Abort f.
Proof.
  unfold maybe_parenthesized, bind.
  cbn [gen_parenthesize DefaultGeneratorRng_GeneratorRng].
  unfold Default_gen_parenthesize, on_engine, draw, ret.
  destruct (bernoulli_distribution _ (rng_ g)) as [[|] e1]; discriminate.
Qed.

(** A failing run fails at [gen_bin_op] or [gen_un_op], after a draw of the
    kind [BinaryExpr] or [UnaryExpr] on weights that satisfy [Inv]. *)
Lemma gen_with_weights_Abort (Inv : Weights -> Prop) :
  (forall w (r r1 : DefaultGeneratorRng (E := E)) kind,
     Inv w -> gen_expr_kind w r = Ok (kind, r1) ->
     kind = ExprKind.BinaryExpr \/ kind = ExprKind.UnaryExpr ->
     Inv (dampened cfg w kind)) ->
  forall fuel w (g : DefaultGeneratorRng (E := E)) f,
    Inv w ->
    gen_with_weights cfg fuel w g = Abort f ->
    f = AssertionFailed "Mask must not be empty" /\
    exists w' (r r1 : DefaultGeneratorRng (E := E)),
      Inv w' /\
      ((gen_expr_kind w' r = Ok (ExprKind.BinaryExpr, r1) /\
        bitset_any NUM_BIN_OPS (bin_op_mask cfg) = false) \/
       (gen_expr_kind w' r = Ok (ExprKind.UnaryExpr, r1) /\
        bitset_any NUM_UN_OPS (un_op_mask cfg) = false)).
Proof.
  intros Hstep.
  induction fuel as [|fuel IH]; intros w g f HInv H; [discriminate|].
  cbn [gen_with_weights] in H.
  apply bind_Abort in H. destruct H as [H | (kind & r1 & Hk & H)].
  { exfalso. exact (gen_expr_kind_not_Abort _ _ H). }
  pose proof (Hstep _ _ _ _ HInv Hk) as HInv'.
  apply bind_Abort in H. destruct H as [H | (e0 & r2 & _ & H)].
  2:{ exfalso. exact (maybe_parenthesized_not_Abort _ _ H). }
  destruct kind;
    try specialize (HInv' ltac:(first [left; reflexivity | right; reflexivity])).
  - unfold gen_integer_constant, bind in H.
    cbn [gen_u64 DefaultGeneratorRng_GeneratorRng] in H.
    unfold Default_gen_u64, on_engine, draw, ret in H.
    destruct (uniform_int_distribution _ _ (rng_ r1)); discriminate.
  - unfold gen_double_constant, bind in H.
    cbn [gen_double DefaultGeneratorRng_GeneratorRng] in H.
    unfold Default_gen_double, on_engine, draw, ret in H.
    destruct (uniform_real_distribution _ _ (rng_ r1)); discriminate.
  - discriminate.
  - unfold gen_binary_expr in H.
    apply bind_Abort in H. destruct H as [H | (op & r3 & _ & H)].
    { apply gen_bin_op_Abort in H. destruct H as [-> Hmask].
      split; [reflexivity|]. exists w, g, r1. split; [exact HInv|].
      left. split; assumption. }
    apply bind_Abort in H. destruct H as [H | (l0 & r4 & _ & H)].
    { exact (IH _ _ _ HInv' H). }
    apply bind_Abort in H. destruct H as [H | (r0 & r5 & _ & H)].
    { exact (IH _ _ _ HInv' H). }
    discriminate.
  - unfold gen_unary_expr in H.
    apply bind_Abort in H. destruct H as [H | (x & r3 & _ & H)].
    { exact (IH _ _ _ HInv' H). }
    apply bind_Abort in H. destruct H as [H | (op & r4 & _ & H)].
    { apply gen_un_op_Abort in H. destruct H as [-> Hmask].
      split; [reflexivity|]. exists w, g, r1. split; [exact HInv|].
      right. split; assumption. }
    discriminate.
Qed.

(** X18. The only way a run of [generate] fails is the assertion of
    [pick_nth_set_bit] on an empty operator mask: a failing run neither
    reaches [lldb_eval_unreachable] nor fails anywhere else, and one of the
    two operator masks has no set bit. *)
Theorem generate_fails_only_on_empty_mask (fuel : nat) (tw : list Q)
    (g : DefaultGeneratorRng (E := E)) f :
  generate cfg fuel tw g = Abort f ->
  f = AssertionFailed "Mask must not be empty" /\
  (bitset_any NUM_BIN_OPS (bin_op_mask cfg) = false
   \/ bitset_any NUM_UN_OPS (un_op_mask cfg) = false).
Proof.
  unfold generate. intros H.
  destruct (@gen_with_weights_Abort (fun _ => True) ltac:(intros; exact I)
              fuel _ g f I H) as (Hf & w' & r & r1 & _ & Hcase).
  split; [exact Hf|].
  destruct Hcase as [[_ Hm] | [_ Hm]]; [left | right]; exact Hm.
Qed.

(** X19. An empty operator mask does no harm when its kind cannot be drawn:
    if the initial weights and the dampening factors of the recursive kinds
    are non-negative, and each of [BinaryExpr] and [UnaryExpr] has a
    non-empty mask or an initial weight of zero, then no run fails. *)
Theorem generate_no_failure_with_unused_empty_mask (fuel : nat) (tw : list Q)
    (g : DefaultGeneratorRng (E := E)) :
  (forall k, (0 <= initial_weight
                     (KindArray.get (expr_kind_weights cfg) k))%Q) ->
  (0 <= dampening_factor (at_BinaryExpr (expr_kind_weights cfg)))%Q ->
  (0 <= dampening_factor (at_UnaryExpr (expr_kind_weights cfg)))%Q ->
  (bitset_any NUM_BIN_OPS (bin_op_mask cfg) = true
   \/ (initial_weight (at_BinaryExpr (expr_kind_weights cfg)) == 0)%Q) ->
  (bitset_any NUM_UN_OPS (un_op_mask cfg) = true
   \/ (initial_weight (at_UnaryExpr (expr_kind_weights cfg)) == 0)%Q) ->
  no_failure (generate cfg fuel tw g).
Proof.
  intros Hnn Hdb Hdu Hbin Hun. unfold generate.
  set (Inv := fun w : Weights =>
         (forall k, (0 <= KindArray.get (expr_weights w) k)%Q) /\
         (bitset_any NUM_BIN_OPS (bin_op_mask cfg) = true
          \/ (KindArray.get (expr_weights w) ExprKind.BinaryExpr == 0)%Q) /\
         (bitset_any NUM_UN_OPS (un_op_mask cfg) = true
          \/ (KindArray.get (expr_weights w) ExprKind.UnaryExpr == 0)%Q)).
  assert (Hinit : Inv (initial_weights cfg tw)).
  { unfold Inv, initial_weights. cbn [expr_weights].
    split; [|split; assumption].
    intros k. specialize (Hnn k). destruct k; exact Hnn. }
  assert (Hscaled : forall w kind k,
             (forall k', (0 <= KindArray.get (expr_weights w) k')%Q) ->
             (0 <= dampening_factor
                     (KindArray.get (expr_kind_weights cfg) kind))%Q ->
             (0 <= KindArray.get (expr_weights (dampened cfg w kind)) k)%Q /\
             ((KindArray.get (expr_weights w) k == 0)%Q ->
              (KindArray.get (expr_weights (dampened cfg w kind)) k == 0)%Q)).
  { intros w kind k Hw Hd.
    unfold dampened, Weights_scale. cbn [expr_weights].
    destruct (ExprKind.eqb k kind) eqn:Eq.
    - assert (k = kind) as -> by (destruct k, kind; congruence || discriminate).
      rewrite KindArray_get_set_same. split.
      + apply Qmult_le_0_compat; [apply Hw | exact Hd].
      + intros ->. ring.
    - rewrite KindArray_get_set_other
        by (intros ->; destruct kind; discriminate).
      split; [apply Hw | intros Hz; exact Hz]. }
  assert (Hstep : forall w (r r1 : DefaultGeneratorRng (E := E)) kind,
             Inv w -> gen_expr_kind w r = Ok (kind, r1) ->
             kind = ExprKind.BinaryExpr \/ kind = ExprKind.UnaryExpr ->
             Inv (dampened cfg w kind)).
  { intros w r r1 kind (Hw & Hb & Hu) _ Hkind.
    assert (Hd : (0 <= dampening_factor
                         (KindArray.get (expr_kind_weights cfg) kind))%Q)
      by (destruct Hkind as [-> | ->]; assumption).
    unfold Inv. split; [|split].
    - intros k. apply Hscaled; assumption.
    - destruct Hb as [Hb|Hb]; [left; exact Hb | right].
      apply Hscaled; assumption.
    - destruct Hu as [Hu|Hu]; [left; exact Hu | right].
      apply Hscaled; assumption. }
  destruct (gen_with_weights cfg fuel (initial_weights cfg tw) g)
    as [[e g']|f|] eqn:Hrun; try exact I.
  exfalso.
  destruct (@gen_with_weights_Abort Inv Hstep fuel _ g f Hinit Hrun)
    as (_ & w' & r & r1 & (Hw & Hb & Hu) & Hcase).
  destruct Hcase as [[Hk Hm] | [Hk Hm]].
  - destruct Hb as [Hb|Hb]; [congruence|].
    destruct (gen_expr_kind_Ok contract w' r Hw Hk) as [Hpos | [Habs _]];
      [|discriminate].
    cbn [KindArray.get] in Hpos. rewrite Hb in Hpos. lra.
  - destruct Hu as [Hu|Hu]; [congruence|].
    destruct (gen_expr_kind_Ok contract w' r Hw Hk) as [Hpos | [Habs _]];
      [|discriminate].
    cbn [KindArray.get] in Hpos. rewrite Hu in Hpos. lra.
Qed.

End Failures.

(** * A mask with a single operator *)

Lemma single_set_bit_unique (N : nat) (mask : Z) (p i : nat) :
  bitset_count N mask = 1%nat ->
  (p < N)%nat -> (i < N)%nat ->
  bitset_test mask p = true -> bitset_test mask i = true ->
  p = i.
Proof.
  intros Hone Hp Hi Tp Ti.
  assert (Hlt : forall a b, (a < b)%nat -> (b < N)%nat ->
                bitset_test mask a = true -> bitset_test mask b = true -> False).
  { intros a b Hab Hb Ta Tb.
    pose proof (bitset_count_S mask a) as Sa. rewrite Ta in Sa.
    pose proof (bitset_count_S mask b) as Sb. rewrite Tb in Sb.
    pose proof (@bitset_count_mono mask (S a) b ltac:(lia)).
    pose proof (@bitset_count_mono mask (S b) N ltac:(lia)). lia. }
  destruct (Nat.lt_trichotomy p i) as [L | [Eq | L]]; [exfalso | exact Eq | exfalso].
  - exact (Hlt p i L Hi Tp Ti).
  - exact (Hlt i p L Hp Ti Tp).
Qed.

Section SingleOperator.
Context {hdr : AstHeader} {E : Type} {eng : RandomEngine E}.
Hypothesis contract : EngineContract E.

(** X20. When exactly one bit of the mask is set, [gen_bin_op] and
    [gen_un_op] return the operator of that bit from every engine state. *)
Theorem default_single_operator (mask : Z) (i : nat)
    (g : DefaultGeneratorRng (E := E)) :
  bitset_test mask i = true ->
  ((i < NUM_BIN_OPS)%nat -> bitset_count NUM_BIN_OPS mask = 1%nat ->
   exists g', gen_bin_op mask g = Ok (BinOp_of_index i, g')) /\
  ((i < NUM_UN_OPS)%nat -> bitset_count NUM_UN_OPS mask = 1%nat ->
   exists g', gen_un_op mask g = Ok (UnOp_of_index i, g')).
Proof.
  intros Ti. split; intros Hi Hone.
  - assert (Hany : bitset_any NUM_BIN_OPS mask = true)
      by (apply bitset_any_count; lia).
    destruct (gen_bin_op_returns contract mask g Hany) as (op & g' & Hop).
    destruct (gen_bin_op_Ok contract _ _ Hop) as (p & -> & Hp & Tp).
    rewrite (single_set_bit_unique _ Hone Hp Hi Tp Ti) in Hop.
    exists g'. exact Hop.
  - assert (Hany : bitset_any NUM_UN_OPS mask = true)
      by (apply bitset_any_count; lia).
    destruct (gen_un_op_returns contract mask g Hany) as (op & g' & Hop).
    destruct (gen_un_op_Ok contract _ _ Hop) as (p & -> & Hp & Tp).
    rewrite (single_set_bit_unique _ Hone Hp Hi Tp Ti) in Hop.
    exists g'. exact Hop.
Qed.

End SingleOperator.

Section FailureRuns.
#[local] Existing Instance sample_header.

Lemma generate_fails_only_on_empty_mask_witness :
  AssertionFailed "Mask must not be empty"
  = AssertionFailed "Mask must not be empty" /\
  (bitset_any NUM_BIN_OPS (bin_op_mask no_bin_op_config) = false
   \/ bitset_any NUM_UN_OPS (un_op_mask no_bin_op_config) = false).
Proof.
  apply (generate_fails_only_on_empty_mask Tape_contract no_bin_op_config
           3 [] (default_rng [700; 2; 0; 7]%Z)).
  vm_compute. reflexivity.
Defined.

Lemma generate_no_failure_with_unused_empty_mask_witness :
  no_failure
    (generate
       {| int_const_min := 0; int_const_max := 9;
          double_constant_min := 0; double_constant_max := 1;
          bin_op_mask := 0; un_op_mask := 3;
          parenthesize_prob := 1 # 4; const_prob := 0; volatile_prob := 0;
          expr_kind_weights :=
            KindArray.set (uniform_weights 1 (1 # 2)) ExprKind.BinaryExpr
              {| initial_weight := 0; dampening_factor := 1 # 2 |};
          type_kind_weights := [] |}
       4 [] (default_rng [999; 0; 5; 999; 1; 999]%Z)).
Proof.
  apply (generate_no_failure_with_unused_empty_mask Tape_contract).
  - intros k. destruct k; vm_compute; discriminate.
  - vm_compute. discriminate.
  - vm_compute. discriminate.
  - right. reflexivity.
  - left. reflexivity.
Defined.

Lemma default_single_operator_witness :
  exists g', gen_bin_op 4 (default_rng [77%Z]) = Ok (BinOp_of_index 2, g').
Proof.
  destruct (default_single_operator Tape_contract 4 2 (default_rng [77%Z])
              ltac:(reflexivity)) as [Hbin _].
  apply Hbin; [cbn; lia | reflexivity].
Defined.

End FailureRuns.
